(** * RealROI calculator: the financial-math core

    A shallow embedding of the calculation engine of the RealROI
    calculator ([src/App.jsx], [src/App.tsx] and
    [src/realroi/RealROICalculator.jsx]) and the properties its
    specification states about it.

    Numbers.  A JavaScript number is modelled by an exact rational in
    lowest terms ([Qc]), so equality of numbers is plain equality and
    the definitions evaluate on concrete inputs.  Rounding of IEEE-754
    doubles is outside the model: every statement below is the
    exact-arithmetic reading of the corresponding property.  Infinities
    and NaN are not represented either: a quotient by zero is [0] here.
    The statements whose truth rests on a quotient being a true
    quotient carry the hypotheses that make its denominator non-zero;
    the others relate a result of the code to the same expression
    written out, and hold under either reading.

    Whole numbers.  Counts of years and months ([termYears], [years],
    [timelineYears], the iteration bound) are integers, as the callers
    pass them.  The engine calls [Math.pow] with whole-number exponents
    only, except for one twelfth root in [App.tsx] whose value is taken
    as an argument. *)

From Stdlib Require Import QArith Qpower Qcanon Qcabs Lqa ZArith List Lia Bool.
From Stdlib Require Import Sorted.
From Stdlib Require Import FinFun.
Import ListNotations.

Local Open Scope Qc_scope.

(** ** Numbers and arrays of the host language *)

Module Num.

(** Whole-number and decimal literals. *)
Definition ofZ (z : Z) : Qc := Q2Qc (inject_Z z).
Definition dec (n : Z) (d : positive) : Qc := Q2Qc (n # d).

(** [x <= y] and [x < y] as the tests of an [if]. *)
Definition leb (x y : Qc) : bool :=
  match x ?= y with Gt => false | _ => true end.
Definition ltb (x y : Qc) : bool :=
  match x ?= y with Lt => true | _ => false end.

(** [Math.max], [Math.abs]. *)
Definition max (x y : Qc) : Qc := if ltb x y then y else x.
Definition abs (x : Qc) : Qc := Qcabs x.

(** [Math.pow(x, z)] for a whole number [z]. *)
Definition pow (x : Qc) (z : Z) : Qc := Q2Qc (Qpower x z).

(** A running [+=] accumulator started at 0, or
    [reduce((a, b) => a + b, 0)]. *)
Definition sum (l : list Qc) : Qc := fold_left Qcplus l 0.

(** [l[i]] for a whole-number index: [None] stands for [undefined]. *)
Definition item {A : Type} (l : list A) (i : Z) : option A :=
  if (i <? 0)%Z then None else nth_error l (Z.to_nat i).

(** [x || fallback] on a number that may be [undefined]: zero is falsy. *)
Definition orElse (x : option Qc) (fallback : Qc) : Qc :=
  match x with
  | Some v => if Qc_eq_bool v 0 then fallback else v
  | None => fallback
  end.

End Num.

(** ** Data model *)

(** One row of the schedule, as pushed by [amortizationSchedule]. *)
Module Row.
Record t : Set := mk {
  month : Z;
  payment : Qc;
  interest : Qc;
  principal : Qc;
  balance : Qc
}.
End Row.

(** The object returned by [amortizationSchedule]. *)
Module Schedule.
Record t : Set := mk {
  paymentMonthly : Qc;
  rows : list Row.t
}.
End Schedule.

(** The object returned by [summarizeFinancials]. *)
Module Financials.
Record t : Set := mk {
  principalPaid : Qc;
  interestPaid : Qc;
  balance : Qc
}.
End Financials.

(** ** The [realroi] object of [App.jsx] *)

Module RealROI.

(** [let r = rateAPR / 12; if (r <= 0) r = 0.0000001;] *)
Definition guardRate : Qc := Num.dec 1 10000000.

Definition monthlyRate (rateAPR : Qc) : Qc :=
  let r := rateAPR / Num.ofZ 12 in
  if Num.leb r 0 then guardRate else r.

(** The denominator of the payment formula, [1 - Math.pow(1 + r, -n)]. *)
Definition paymentDenominator (r : Qc) (n : Z) : Qc :=
  1 - Num.pow (1 + r) (- n).

(** [const m = (loan * r) / (1 - Math.pow(1 + r, -n));]  For [n = 0]
    the denominator is zero and the code's payment is an infinity or
    NaN: the payment is the code's for [0 < n] only. *)
Definition monthlyPayment (loan r : Qc) (n : Z) : Qc :=
  (loan * r) / paymentDenominator r n.

(** The loop [for (let i = 1; i <= n; i++)]: [count] turns are left,
    [i] is the month about to be pushed and [bal] the running balance,
    which is floored by [Math.max(0, bal)] only in the copy kept in the
    row. *)
Fixpoint scheduleLoop (m r : Qc) (count : nat) (i : Z) (bal : Qc)
  : list Row.t :=
  match count with
  | O => []
  | S count' =>
      let interest := bal * r in
      let principal := m - interest in
      let bal' := bal - principal in
      Row.mk i m interest principal (Num.max 0 bal')
        :: scheduleLoop m r count' (i + 1) bal'
  end.

Definition amortizationSchedule (loan rateAPR : Qc) (termYears : Z)
  : Schedule.t :=
  let n := (termYears * 12)%Z in
  let r := monthlyRate rateAPR in
  let m := monthlyPayment loan r n in
  Schedule.mk m (scheduleLoop m r (Z.to_nat n) 1 loan).

(** [summarizeFinancials(rows, years)].  The loop reads
    [rows[0 .. months-1]], which is in range because
    [months <= rows.length]; a negative [months] runs no turn and reads
    [rows[months - 1]] out of range. *)
Definition summarizeFinancials (rows : list Row.t) (years : Z)
  : Financials.t :=
  let months := Z.min (Z.of_nat (length rows)) (years * 12) in
  if (months =? 0)%Z then
    Financials.mk 0 0
      (if (0 <? Z.of_nat (length rows))%Z
       then match Num.item rows 0 with Some r0 => Row.balance r0 | None => 0 end
       else 0)
  else
    let window := firstn (Z.to_nat months) rows in
    Financials.mk
      (Num.sum (map Row.principal window))
      (Num.sum (map Row.interest window))
      (match Num.item rows (months - 1) with
       | Some r => Row.balance r
       | None => 0
       end).

(** [appreciationGain(price, rate, years)] *)
Definition appreciationGain (price rate : Qc) (years : Z) : Qc :=
  price * (Num.pow (1 + rate) years - 1).

(** The configuration object read by [annualCashFlow]. *)
Record CashFlowConfig : Set := mkConfig {
  rentMonthly : Qc;
  pmPct : Qc;
  price : Qc;
  taxesPct : Qc;
  vacancyMonths10yr : Qc;
  repairs10yr : Qc;
  warranty10yr : Qc;
  pmiMonthly : option Qc;
  piMonthly : Qc;
  insuranceAnnual : Qc
}.

Definition annualCashFlow (cfg : CashFlowConfig) : Qc :=
  let rentAnnual := rentMonthly cfg * Num.ofZ 12 in
  let pm := rentAnnual * pmPct cfg in
  let taxes := price cfg * taxesPct cfg in
  let vacancy := (vacancyMonths10yr cfg / Num.ofZ 10) * rentMonthly cfg in
  let repairs := repairs10yr cfg / Num.ofZ 10 in
  let warranty := warranty10yr cfg / Num.ofZ 10 in
  let pmi := (match pmiMonthly cfg with Some p => p | None => 0 end)
             * Num.ofZ 12 in
  rentAnnual - (piMonthly cfg * Num.ofZ 12 + taxes + insuranceAnnual cfg
                + pm + vacancy + repairs + warranty + pmi).

(** [toReal(nominal, cpiBase, cpiNow)] *)
Definition toReal (nominal cpiBase cpiNow : Qc) : Qc :=
  nominal * (cpiBase / cpiNow).

(** The monthly fee of [realEquityCurve] and its growth factor [g]. *)
Definition feeMonthly (feeBpsPerYear : Qc) : Qc :=
  (feeBpsPerYear / Num.ofZ 10000) / Num.ofZ 12.

Definition growthFactor (ret div cpi feeMo : Qc) : Qc :=
  ((1 + (ret + div)) * (1 - feeMo)) / (1 + cpi).

(** The loop of [realEquityCurve]: [rest] is [returns] from index [t]
    on and [curve] the array built so far.  [dividends[t]] and
    [cpiGrowth[t]] are read by index; past the end they are [undefined],
    the pushed element is NaN, and the model answers [None].  Where
    [1 + cpiGrowth[t]] is zero the code pushes an infinity or NaN too,
    which the curve of the model does not show. *)
Fixpoint curveLoop (feeMo : Qc) (dividends cpiGrowth rest : list Qc)
  (t : nat) (curve : list Qc) : option (list Qc) :=
  match rest with
  | [] => Some curve
  | ret :: rest' =>
      match nth_error dividends t, nth_error cpiGrowth t with
      | Some div, Some cpi =>
          let g := growthFactor ret div cpi feeMo in
          curveLoop feeMo dividends cpiGrowth rest' (S t)
            (curve ++ [last curve 0 * g])
      | _, _ => None
      end
  end.

Definition realEquityCurve (returns dividends cpiGrowth : list Qc)
  (feeBpsPerYear : Qc) : option (list Qc) :=
  curveLoop (feeMonthly feeBpsPerYear) dividends cpiGrowth returns 0 [1].

(** The loop of [terminalWealthFromCashFlows]: [rest] is
    [cashFlowsReal] from index [t] on. *)
Fixpoint wealthLoop (curve : list Qc) (T : nat) (rest : list Qc)
  (t : nat) (wealth : Qc) : Qc :=
  match rest with
  | [] => wealth
  | cf :: rest' =>
      if (length curve <=? t)%nat
      then wealthLoop curve T rest' (S t) wealth
      else
        let grow := nth T curve 0 / nth t curve 0 in
        wealthLoop curve T rest' (S t) (wealth + cf * grow)
  end.

Definition terminalWealthFromCashFlows (curve cashFlowsReal : list Qc) : Qc :=
  let T := (Z.of_nat (length curve) - 1)%Z in
  if ((T <? 0)%Z || (length curve =? 0)%nat)%bool then 0
  else wealthLoop curve (Z.to_nat T) cashFlowsReal 0 0.

End RealROI.

(** ** The return solver of [RealROICalculator.jsx] *)

Module Solver.

(** [cashflows.reduce((acc, cf, t) => acc + cf / Math.pow(1 + rate, t), 0)]:
    [rest] is the array from index [t] on.  At [1 + rate = 0] the
    terms of the code are not finite and the sum is the code's for
    [1 + rate <> 0] only. *)
Fixpoint npvLoop (rate : Qc) (rest : list Qc) (t : Z) (acc : Qc) : Qc :=
  match rest with
  | [] => acc
  | cf :: rest' =>
      npvLoop rate rest' (t + 1) (acc + cf / Num.pow (1 + rate) t)
  end.

Definition npv (rate : Qc) (cashflows : list Qc) : Qc :=
  npvLoop rate cashflows 0 0.

(** The loop of [irrBisection] with [iters] turns left; [None] is the
    [null] returned when the turns run out. *)
Fixpoint bisectLoop (cashflows : list Qc) (tol : Qc) (iters : nat)
  (low high fLow fHigh : Qc) : option Qc :=
  match iters with
  | O => None
  | S iters' =>
      let mid := (low + high) / Num.ofZ 2 in
      let fMid := npv mid cashflows in
      if Num.ltb (Num.abs fMid) tol then Some mid
      else if Num.ltb (fLow * fMid) 0
           then bisectLoop cashflows tol iters' low mid fLow fMid
           else bisectLoop cashflows tol iters' mid high fMid fHigh
  end.

Definition irrBisection (cashflows : list Qc) (low high tol : Qc)
  (maxIter : nat) : option Qc :=
  let fLow := npv low cashflows in
  let fHigh := npv high cashflows in
  if Num.ltb 0 (fLow * fHigh) then None
  else bisectLoop cashflows tol maxIter low high fLow fHigh.

(** The default arguments: [low = -0.9, high = 5.0, tol = 1e-8,
    maxIter = 10000]. *)
Definition defaultLow : Qc := Num.dec (-9) 10.
Definition defaultHigh : Qc := Num.ofZ 5.
Definition defaultTol : Qc := Num.dec 1 100000000.
Definition defaultMaxIter : nat := Z.to_nat 10000.

Definition irrBisectionDefault (cashflows : list Qc) : option Qc :=
  irrBisection cashflows defaultLow defaultHigh defaultTol defaultMaxIter.

End Solver.

(** ** The result pipeline of [App.jsx] ([calculateResults]) *)

(** One entry of the yearly ledger of [App.jsx]. *)
Module LedgerEntry.
Record t : Set := mk {
  year : Z;
  nominalCashFlow : Qc;
  cumulativeNominalCashFlow : Qc;
  interestPaid : Qc;
  principalPaid : Qc;
  loanBalance : Qc;
  taxSavings : Qc
}.
End LedgerEntry.

Module AppJsx.

(** The fields of the [deal] state that the modelled part of
    [calculateResults] reads. *)
Record Deal : Set := mkDeal {
  price : Qc;
  downPct : Qc;
  rate : Qc;
  termYears : Z;
  taxesPct : Qc;
  insuranceAnnual : Qc;
  rentMonthly : Qc;
  closingCosts : Qc;
  reserves : Qc;
  appreciationRate : Qc;
  timelineYears : Z
}.

(** [DEFAULTS] *)
Definition vacancyMonths10yr : Qc := Num.ofZ 5.
Definition pmPct : Qc := Num.dec 8 100.
Definition repairs10yr : Qc := Num.ofZ 15000.
Definition warranty10yr : Qc := Num.ofZ 5000.
Definition defaultMarginalRate : Qc := Num.dec 32 100.
Definition saleCostPct : Qc := Num.dec 7 100.
Definition pmiAnnualRate : Qc := Num.dec 6 1000.

(** [MOCK_CPI_DATA.data], 180 values [217.4 + i * 0.45], and
    [cpiSeries = MOCK_CPI_DATA.data.map(d => d.value)]. *)
Definition cpiSeries : list Qc :=
  map (fun i => Num.dec 2174 10 + Num.ofZ (Z.of_nat i) * Num.dec 45 100)
      (seq 0 180).

(** [MOCK_CPI_DATA.data[0].value] and
    [MOCK_CPI_DATA.data[timelineYears * 12 - 1]?.value ?? cpiBase] *)
Definition cpiBase : Qc := nth 0 cpiSeries 0.

Definition cpiTimelineEnd (d : Deal) : Qc :=
  match Num.item cpiSeries (timelineYears d * 12 - 1) with
  | Some v => v
  | None => cpiBase
  end.

Definition downPayment (d : Deal) : Qc := price d * downPct d.
Definition loan (d : Deal) : Qc := price d - downPayment d.
Definition hasPMI (d : Deal) : bool := Num.ltb (downPct d) (Num.dec 20 100).

Definition schedule (d : Deal) : Schedule.t :=
  RealROI.amortizationSchedule (loan d) (rate d / Num.ofZ 100) (termYears d).

(** [{ ...mergedInputs, piMonthly: schedule.paymentMonthly, pmiMonthly }] *)
Definition cashFlowConfig (d : Deal) (piMonthly pmiMonthly : Qc)
  : RealROI.CashFlowConfig :=
  RealROI.mkConfig (rentMonthly d) pmPct (price d) (taxesPct d)
    vacancyMonths10yr repairs10yr warranty10yr (Some pmiMonthly)
    piMonthly (insuranceAnnual d).

(** One turn of [for (let y = 1; y <= timelineYears; y++)]: the entry
    pushed for year [y], given the ledger built so far and the running
    [cumulativeCashFlow]. *)
Definition ledgerEntry (d : Deal) (y : Z) (cumulativeCashFlow : Qc)
  (ledger : list LedgerEntry.t) : LedgerEntry.t :=
  let financials := RealROI.summarizeFinancials (Schedule.rows (schedule d)) y in
  let currentLTV := Financials.balance financials / price d in
  let pmiMonthly :=
    if (hasPMI d && Num.ltb (Num.dec 80 100) currentLTV)%bool
    then (loan d * pmiAnnualRate) / Num.ofZ 12 else 0 in
  let nominalAnnualCashFlow :=
    RealROI.annualCashFlow
      (cashFlowConfig d (Schedule.paymentMonthly (schedule d)) pmiMonthly) in
  let cumulativeCashFlow' := cumulativeCashFlow + nominalAnnualCashFlow in
  let interestThisYear :=
    Financials.interestPaid financials
    - Num.orElse (option_map LedgerEntry.interestPaid (Num.item ledger (y - 2))) 0 in
  let taxSavings :=
    (interestThisYear + price d * taxesPct d) * defaultMarginalRate in
  LedgerEntry.mk y nominalAnnualCashFlow cumulativeCashFlow'
    (Financials.interestPaid financials) (Financials.principalPaid financials)
    (Financials.balance financials) taxSavings.

Fixpoint ledgerLoop (d : Deal) (count : nat) (y : Z) (cumulativeCashFlow : Qc)
  (ledger : list LedgerEntry.t) : list LedgerEntry.t :=
  match count with
  | O => ledger
  | S count' =>
      let e := ledgerEntry d y cumulativeCashFlow ledger in
      ledgerLoop d count' (y + 1) (LedgerEntry.cumulativeNominalCashFlow e)
        (ledger ++ [e])
  end.

Definition ledger (d : Deal) : list LedgerEntry.t :=
  ledgerLoop d (Z.to_nat (timelineYears d)) 1 0 [].

(** [ledger[timelineYears - 1] || { principalPaid: 0,
    cumulativeNominalCashFlow: 0, loanBalance: loan }]; the fields the
    fallback object lacks are never read from it. *)
Definition finalLedgerEntry (d : Deal) : LedgerEntry.t :=
  match Num.item (ledger d) (timelineYears d - 1) with
  | Some e => e
  | None => LedgerEntry.mk 0 0 0 0 0 (loan d) 0
  end.

Definition appreciation (d : Deal) : Qc :=
  RealROI.appreciationGain (price d) (appreciationRate d) (timelineYears d).

Definition principalPaid (d : Deal) : Qc :=
  LedgerEntry.principalPaid (finalLedgerEntry d).

(** [ledger.reduce((acc, yr) => acc + yr.taxSavings, 0)] *)
Definition totalTaxSavings (d : Deal) : Qc :=
  Num.sum (map LedgerEntry.taxSavings (ledger d)).

Definition netProceeds (d : Deal) : Qc :=
  let salePrice := price d * Num.pow (1 + appreciationRate d) (timelineYears d) in
  let saleCosts := salePrice * saleCostPct in
  let loanPayoff := LedgerEntry.loanBalance (finalLedgerEntry d) in
  salePrice - saleCosts - loanPayoff.

Definition totalNominalROI (d : Deal) : Qc :=
  appreciation d + principalPaid d
  + LedgerEntry.cumulativeNominalCashFlow (finalLedgerEntry d)
  + totalTaxSavings d.

Definition totalRealROI (d : Deal) : Qc :=
  RealROI.toReal (totalNominalROI d) cpiBase (cpiTimelineEnd d).

Definition totalInvestment (d : Deal) : Qc :=
  downPayment d + closingCosts d + reserves d.

Definition roiPct (d : Deal) : Qc :=
  if Num.ltb 0 (totalInvestment d)
  then totalRealROI d / totalInvestment d else 0.

End AppJsx.

(** ** The result pipeline of the variant [App.tsx] *)

(** One entry of the yearly ledger of [App.tsx]; it keeps no
    [interestPaid]. *)
Module LedgerEntryTsx.
Record t : Set := mk {
  year : Z;
  nominalCashFlow : Qc;
  principalPaid : Qc;
  loanBalance : Qc;
  taxSavings : Qc
}.
End LedgerEntryTsx.

Module AppTsx.

(** The fields of the [deal] state that the modelled part of
    [calculateResults] reads. *)
Record Deal : Set := mkDeal {
  price : Qc;
  downPct : Qc;
  rate : Qc;
  termYears : Z;
  taxesPct : Qc;
  insuranceAnnual : Qc;
  rentMonthly : Qc;
  gainsRate : Qc;
  timelineYears : Z;
  costSegregation : bool
}.

(** [DEFAULTS] *)
Definition pmPct : Qc := Num.dec 8 100.
Definition defaultMarginalRate : Qc := Num.dec 32 100.
Definition pmiAnnualRate : Qc := Num.dec 6 1000.
Definition buildingPct : Qc := Num.dec 8 10.

(** [annualCashFlow] of this variant, on the fields it reads. *)
Definition annualCashFlow (rentMonthly pmPct price taxesPct warrantyAnnual
  : Qc) (pmiMonthly : option Qc) (piMonthly insuranceAnnual : Qc) : Qc :=
  let rentAnnual := rentMonthly * Num.ofZ 12 in
  let pm := rentAnnual * pmPct in
  let taxes := price * taxesPct in
  let vacancy := rentMonthly * Num.dec 5 10 in
  let warranty := warrantyAnnual in
  let pmi := (match pmiMonthly with Some p => p | None => 0 end)
             * Num.ofZ 12 in
  let repairs := Num.ofZ 15000 / Num.ofZ 10 in
  rentAnnual - (piMonthly * Num.ofZ 12 + taxes + insuranceAnnual
                + pm + vacancy + repairs + warranty + pmi).

(** [let cpiSeries = [100]; for (let i = 1; i < timelineYears * 12; i++)
    cpiSeries.push(cpiSeries[i-1] * (1 + monthlyInflation));] where
    [monthlyInflation = Math.pow(1 + inflationRate, 1/12) - 1] is an
    argument of the model. *)
Fixpoint cpiLoop (monthlyInflation : Qc) (count : nat) (i : Z)
  (series : list Qc) : list Qc :=
  match count with
  | O => series
  | S count' =>
      cpiLoop monthlyInflation count' (i + 1)
        (series ++ [match Num.item series (i - 1) with
                    | Some v => v | None => 0 end
                    * (1 + monthlyInflation)])
  end.

Definition cpiSeries (monthlyInflation : Qc) (d : Deal) : list Qc :=
  cpiLoop monthlyInflation (Z.to_nat (timelineYears d * 12 - 1)) 1
    [Num.ofZ 100].

Definition cpiBase (monthlyInflation : Qc) (d : Deal) : Qc :=
  nth 0 (cpiSeries monthlyInflation d) 0.

Definition cpiTimelineEnd (monthlyInflation : Qc) (d : Deal) : Qc :=
  last (cpiSeries monthlyInflation d) 0.

Definition loan (d : Deal) : Qc := price d - price d * downPct d.
Definition hasPMI (d : Deal) : bool := Num.ltb (downPct d) (Num.dec 20 100).

Definition schedule (d : Deal) : Schedule.t :=
  RealROI.amortizationSchedule (loan d) (rate d / Num.ofZ 100) (termYears d).

(** One turn of [for (let y = 1; y <= timelineYears; y++)].  The
    entries of this ledger have no [interestPaid], so
    [ledger[y - 2]?.interestPaid || 0] is always [0]. *)
Definition ledgerEntry (d : Deal) (y : Z) : LedgerEntryTsx.t :=
  let financials := RealROI.summarizeFinancials (Schedule.rows (schedule d)) y in
  let currentLTV := Financials.balance financials / price d in
  let pmiMonthly :=
    if (hasPMI d && Num.ltb (Num.dec 80 100) currentLTV)%bool
    then (loan d * pmiAnnualRate) / Num.ofZ 12 else 0 in
  let warrantyAnnual := Num.ofZ 2500 / Num.ofZ 5 in
  let nominalAnnualCashFlow :=
    annualCashFlow (rentMonthly d) pmPct (price d) (taxesPct d) warrantyAnnual
      (Some pmiMonthly) (Schedule.paymentMonthly (schedule d))
      (insuranceAnnual d) in
  let interestThisYear := Financials.interestPaid financials - 0 in
  let buildingValue := price d * buildingPct in
  let depreciationThisYear :=
    if (costSegregation d && (y =? 1)%Z)%bool
    then buildingValue * Num.dec 20 100
    else buildingValue / Num.dec 275 10 in
  let taxSavings :=
    (interestThisYear + price d * taxesPct d + depreciationThisYear)
    * defaultMarginalRate in
  LedgerEntryTsx.mk y nominalAnnualCashFlow
    (Financials.principalPaid financials) (Financials.balance financials)
    taxSavings.

Fixpoint ledgerLoop (d : Deal) (count : nat) (y : Z)
  (ledger : list LedgerEntryTsx.t) : list LedgerEntryTsx.t :=
  match count with
  | O => ledger
  | S count' => ledgerLoop d count' (y + 1) (ledger ++ [ledgerEntry d y])
  end.

Definition ledger (d : Deal) : list LedgerEntryTsx.t :=
  ledgerLoop d (Z.to_nat (timelineYears d)) 1 [].

(** [ledger[timelineYears - 1] || { principalPaid: 0, loanBalance: loan }] *)
Definition finalLedgerEntry (d : Deal) : LedgerEntryTsx.t :=
  match Num.item (ledger d) (timelineYears d - 1) with
  | Some e => e
  | None => LedgerEntryTsx.mk 0 0 0 (loan d) 0
  end.

(** The deflator of year [y] (counted from 0):
    [cpiBase / (cpiSeries[(y + 1) * 12 - 1] || cpiTimelineEnd)]. *)
Definition yearDeflator (mi : Qc) (d : Deal) (y : Z) : Qc :=
  cpiBase mi d
  / Num.orElse (Num.item (cpiSeries mi d) ((y + 1) * 12 - 1))
               (cpiTimelineEnd mi d).

(** [for (let y = 0; y < timelineYears; y++)] accumulating
    [realCashFlow] and [realTaxSavings]. *)
Fixpoint realLoop (mi : Qc) (d : Deal) (count : nat) (y : Z)
  (realCashFlow realTaxSavings : Qc) : Qc * Qc :=
  match count with
  | O => (realCashFlow, realTaxSavings)
  | S count' =>
      let entry := Num.item (ledger d) y in
      realLoop mi d count' (y + 1)
        (realCashFlow
         + Num.orElse (option_map LedgerEntryTsx.nominalCashFlow entry) 0
           * yearDeflator mi d y)
        (realTaxSavings
         + Num.orElse (option_map LedgerEntryTsx.taxSavings entry) 0
           * yearDeflator mi d y)
  end.

Definition realGains (mi : Qc) (d : Deal) : Qc :=
  RealROI.appreciationGain (price d) (gainsRate d) (timelineYears d)
  * (cpiBase mi d / cpiTimelineEnd mi d).

Definition realPrincipalPaid (mi : Qc) (d : Deal) : Qc :=
  LedgerEntryTsx.principalPaid (finalLedgerEntry d)
  * (cpiBase mi d / cpiTimelineEnd mi d).

Definition totalRealROI (mi : Qc) (d : Deal) : Qc :=
  let '(realCashFlow, realTaxSavings) :=
    realLoop mi d (Z.to_nat (timelineYears d)) 0 0 0 in
  realGains mi d + realPrincipalPaid mi d + realCashFlow + realTaxSavings.

(** The values taken by the counter of a loop that starts at [y] and
    makes [count] turns; the years [0 .. timelineYears - 1] of the
    horizon. *)
Fixpoint yearsFrom (y : Z) (count : nat) : list Z :=
  match count with
  | O => []
  | S count' => y :: yearsFrom (y + 1) count'
  end.

Definition years (d : Deal) : list Z :=
  yearsFrom 0 (Z.to_nat (timelineYears d)).

End AppTsx.

(** ** Notions used to state and prove the properties *)

Module Aux.

(** The running balance of [scheduleLoop] after [count] turns. *)
Fixpoint runningBalance (m r : Qc) (count : nat) (bal : Qc) : Qc :=
  match count with
  | O => bal
  | S count' => runningBalance m r count' (bal - (m - bal * r))
  end.

(** A column never goes up from one row to the next. *)
Definition nonIncreasing (l : list Qc) : Prop :=
  Sorted (fun a b => b <= a) l.

(** The values [c * g1], [c * g1 * g2], ... *)
Fixpoint compound (c : Qc) (gs : list Qc) : list Qc :=
  match gs with
  | [] => []
  | g :: gs' => (c * g) :: compound (c * g) gs'
  end.

(** An array as the list of its (index, element) pairs, from index [t]. *)
Definition indexedFrom (t : nat) (l : list Qc) : list (nat * Qc) :=
  combine (seq t (length l)) l.

(** The sum the specification gives for the terminal wealth: over the
    indices [t < curve.length] only, of
    [cashFlowsReal[t] * curve[last] / curve[t]]. *)
Definition horizonSum (curve cashFlowsReal : list Qc) : Qc :=
  Num.sum
    (map (fun p => snd p * (nth (length curve - 1) curve 0 / nth (fst p) curve 0))
         (filter (fun p => (fst p <? length curve)%nat)
                 (indexedFrom 0 cashFlowsReal))).

(** The index at which the flows of year [y] (counted from 1) would be
    deflated if each year were brought back to the base period on its
    own: the index of the year's last month. *)
Definition cpiYearEnd (d : AppJsx.Deal) (y : Z) : Qc :=
  match Num.item AppJsx.cpiSeries (y * 12 - 1) with
  | Some v => v
  | None => AppJsx.cpiTimelineEnd d
  end.

(** The total the specification describes, which follows its words and
    not the code: every year's cash flow and tax saving deflated at
    that year's index before the sum is taken (appreciation and
    principal, realised at the sale, at the end index).
    [calculateResults] of [App.jsx] does not compute it; it is what
    [AppJsx.totalRealROI] is compared with. *)
Definition perPeriodRealROI (d : AppJsx.Deal) : Qc :=
  RealROI.toReal (AppJsx.appreciation d) AppJsx.cpiBase (AppJsx.cpiTimelineEnd d)
  + RealROI.toReal (AppJsx.principalPaid d) AppJsx.cpiBase
      (AppJsx.cpiTimelineEnd d)
  + Num.sum (map (fun e => RealROI.toReal (LedgerEntry.nominalCashFlow e)
                             AppJsx.cpiBase (cpiYearEnd d (LedgerEntry.year e)))
                 (AppJsx.ledger d))
  + Num.sum (map (fun e => RealROI.toReal (LedgerEntry.taxSavings e)
                             AppJsx.cpiBase (cpiYearEnd d (LedgerEntry.year e)))
                 (AppJsx.ledger d)).

(** The default deal of [App.jsx] with a rate of 6%, a one-year loan and
    the five-year timeline. *)
Definition shortLoanDeal : AppJsx.Deal :=
  AppJsx.mkDeal (Num.ofZ 450000) (Num.dec 20 100) (Num.ofZ 6) 1
    (Num.dec 2 100) (Num.ofZ 1800) (Num.ofZ 2600) (Num.ofZ 8000)
    (Num.ofZ 10000) (Num.dec 55 1000) 5.

End Aux.

(** ** Further parts of the sources *)

(** The Newton solver [realroi.irr] of [App.jsx].  In exact arithmetic
    its iterate stops being finite in three ways only: [1 + r] is zero
    (the term of [t = 0] of [dnpv] is then 0/0), the array is empty
    (0/0), or [dnpv] is zero.  [None] stands for that NaN or infinity. *)
Module Newton.

Definition maxIter : nat := 100.
Definition tol : Qc := Num.dec 1 10000000.
Definition defaultGuess : Qc := Num.dec 1 10.

(** The inner loop: [rest] is [cashFlows] from index [t] on; the pair
    is ([npv], [dnpv]). *)
Fixpoint sumsLoop (r : Qc) (rest : list Qc) (t : Z) (npv dnpv : Qc)
  : Qc * Qc :=
  match rest with
  | [] => (npv, dnpv)
  | cf :: rest' =>
      let d := Num.pow (1 + r) t in
      sumsLoop r rest' (t + 1)
        (npv + cf / d)
        (dnpv + (- Num.ofZ t * cf) / (d * (1 + r)))
  end.

(** [const step = npv / dnpv], when it is finite. *)
Definition newtonStep (cashFlows : list Qc) (r : Qc) : option Qc :=
  if Qc_eq_bool (1 + r) 0 then None
  else
    let '(npv, dnpv) := sumsLoop r cashFlows 0 0 0 in
    if Qc_eq_bool dnpv 0 then None else Some (npv / dnpv).

(** The outer loop with [iters] turns left. *)
Fixpoint irrLoop (cashFlows : list Qc) (iters : nat) (r : Qc) : option Qc :=
  match iters with
  | O => Some r
  | S iters' =>
      match newtonStep cashFlows r with
      | None => None
      | Some step =>
          let r' := r - step in
          if Num.ltb (Num.abs step) tol then Some r'
          else irrLoop cashFlows iters' r'
      end
  end.

Definition irr (cashFlows : list Qc) (guess : Qc) : option Qc :=
  irrLoop cashFlows maxIter guess.

End Newton.

(** The cash-flow series that [calculateResults] of [App.jsx] builds
    for the solver and for the benchmark. *)
Module AppJsxFlows.

(** [(ledger[y]?.nominalCashFlow || 0) / 12] *)
Definition monthlyShare (d : AppJsx.Deal) (y : Z) : Qc :=
  Num.orElse (option_map LedgerEntry.nominalCashFlow
                (Num.item (AppJsx.ledger d) y)) 0
  / Num.ofZ 12.

(** [for (let y = 0; y < timelineYears; y++) for (let m = 0; m < 12; m++)
    monthlyCashFlows.push(...)] *)
Fixpoint monthlyLoop (d : AppJsx.Deal) (count : nat) (y : Z)
  (flows : list Qc) : list Qc :=
  match count with
  | O => flows
  | S count' =>
      monthlyLoop d count' (y + 1) (flows ++ repeat (monthlyShare d y) 12)
  end.

(** [if (monthlyCashFlows.length > 1)
      monthlyCashFlows[monthlyCashFlows.length - 1] += netProceeds;] *)
Definition monthlyCashFlows (d : AppJsx.Deal) : list Qc :=
  let flows :=
    monthlyLoop d (Z.to_nat (AppJsx.timelineYears d)) 0
      [- AppJsx.totalInvestment d] in
  if (1 <? length flows)%nat
  then removelast flows ++ [last flows 0 + AppJsx.netProceeds d]
  else flows.

(** [cpiSeries[i] || cpiSeries.slice(-1)[0]] *)
Definition cpiAt (i : nat) : Qc :=
  Num.orElse (nth_error AppJsx.cpiSeries i) (last AppJsx.cpiSeries 0).

(** [monthlyCashFlows.map((cf, i) => realroi.toReal(cf, cpiBase, ...))] *)
Definition monthlyRealCashFlows (d : AppJsx.Deal) : list Qc :=
  map (fun p => RealROI.toReal (snd p) AppJsx.cpiBase (cpiAt (fst p)))
      (Aux.indexedFrom 0 (monthlyCashFlows d)).

(** [const irr = realroi.irr(monthlyRealCashFlows);] *)
Definition irr (d : AppJsx.Deal) : option Qc :=
  Newton.irr (monthlyRealCashFlows d) Newton.defaultGuess.

(** [cpiSeries.slice(1).map((c, i) => (c / cpiSeries[i]) - 1)] *)
Definition cpiGrowth : list Qc :=
  map (fun p => snd p / nth (fst p) AppJsx.cpiSeries 0 - 1)
      (Aux.indexedFrom 0 (skipn 1 AppJsx.cpiSeries)).

(** [realroi.realEquityCurve(MOCK_EQUITY_DATA.monthlyReturns,
    MOCK_EQUITY_DATA.dividends, cpiGrowth, totalFeeBps)]: the two
    series of [MOCK_EQUITY_DATA] are drawn with [Math.random] and are
    arguments here; both have 180 elements. *)
Definition equityCurve (monthlyReturns dividends : list Qc)
  (totalFeeBps : Qc) : option (list Qc) :=
  RealROI.realEquityCurve monthlyReturns dividends cpiGrowth totalFeeBps.

End AppJsxFlows.

(** The helpers and the cost-segregation block of [runModel] in
    [RealROICalculator.jsx]. *)
Module Calculator.

(** [Math.min] *)
Definition min (x y : Qc) : Qc := if Num.ltb y x then y else x.

(** The loop of [spacedMonths]: [turns] turns are left and [i] is the
    counter. *)
Fixpoint spacedLoop (step months : Z) (turns : nat) (i : Z) : list Z :=
  match turns with
  | O => []
  | S turns' =>
      Z.min (step * i) (months - 1) :: spacedLoop step months turns' (i + 1)
  end.

(** [spacedMonths(count, months)], on whole numbers;
    [Math.floor(months / (count + 1))] is the floored quotient. *)
Definition spacedMonths (count months : Z) : list Z :=
  if (count <=? 0)%Z then []
  else spacedLoop (months / (count + 1)) months (Z.to_nat count) 1.

(** The fields of [ModelInputs] read by the cost-segregation block. *)
Record CostSegInputs : Set := mkCostSeg {
  purchasePrice : Qc;
  landPct : Qc;
  reclassPct : Qc;
  bonusPct : Qc;
  taxBracket : Qc;
  magi : Qc;
  otherPassiveIncome : Qc;
  useCostSeg : bool;
  repsOrSTR : bool
}.

Definition improvementBasis (i : CostSegInputs) : Qc :=
  purchasePrice i * (1 - landPct i).
Definition bonusEligible (i : CostSegInputs) : Qc :=
  improvementBasis i * reclassPct i * bonusPct i.
Definition remainingImpr (i : CostSegInputs) : Qc :=
  improvementBasis i - improvementBasis i * reclassPct i.
Definition slYear1 (i : CostSegInputs) : Qc :=
  remainingImpr i / Num.dec 275 10.

(** The special allowance: 25000, phased out between a MAGI of 100000
    and one of 150000. *)
Definition specialAllowance (magi : Qc) : Qc :=
  if Num.leb magi (Num.ofZ 100000) then Num.ofZ 25000
  else if Num.leb (Num.ofZ 150000) magi then 0
  else Num.max 0 (Num.ofZ 25000 - Num.dec 5 10 * (magi - Num.ofZ 100000)).

(** [i.repsOrSTR ? Infinity : (specialAllowance + i.otherPassiveIncome)];
    [None] is [Infinity]. *)
Definition immediateCap (i : CostSegInputs) : option Qc :=
  if repsOrSTR i then None
  else Some (specialAllowance (magi i) + otherPassiveIncome i).

Definition immediateAvailable (i : CostSegInputs) : Qc :=
  bonusEligible i + slYear1 i.

(** [Math.min(immediateAvailable, immediateCap)] *)
Definition immediateUsed (i : CostSegInputs) : Qc :=
  match immediateCap i with
  | None => immediateAvailable i
  | Some cap => min (immediateAvailable i) cap
  end.

Definition immediateTaxSavings (i : CostSegInputs) : Qc :=
  immediateUsed i * taxBracket i.

(** [i.useCostSeg ? reBaseNet + immediateTaxSavings : reBaseNet] *)
Definition reWithCostSeg (i : CostSegInputs) (reBaseNet : Qc) : Qc :=
  if useCostSeg i then reBaseNet + immediateTaxSavings i else reBaseNet.

End Calculator.

(** The rent schedule of [runModel] in [RealROICalculator.jsx]. *)
Module Rental.

(** [Array.from({ length: months }, (_, m) =>
      i.startRentMonthly * Math.pow(1 + i.rentGrowthAnnual, Math.floor(m / 12)))] *)
Definition rents (startRentMonthly rentGrowthAnnual : Qc) (months : Z)
  : list Qc :=
  map (fun m => startRentMonthly
                * Num.pow (1 + rentGrowthAnnual) (Z.of_nat m / 12))
      (seq 0 (Z.to_nat months)).

(** [rentsAdj[vm] = 0].  A negative [vm] sets a property that is not
    an element and leaves the array as it is.  An index past the end
    would extend the array with holes, which [reduce] skips and which
    are written [0] here; [runModel] never assigns there, since
    [spacedMonths] clamps its months to [months - 1]. *)
Definition zeroAt (l : list Qc) (vm : Z) : list Qc :=
  if (vm <? 0)%Z then l
  else if (vm <? Z.of_nat (length l))%Z
       then firstn (Z.to_nat vm) l ++ 0 :: skipn (S (Z.to_nat vm)) l
       else l ++ repeat 0 (Z.to_nat vm - length l) ++ [0].

(** [const rentsAdj = rents.slice();
    vacancyMonths.forEach((vm) => (rentsAdj[vm] = 0));] *)
Definition rentsAdj (rents : list Qc) (vacancyMonths : list Z) : list Qc :=
  fold_left zeroAt vacancyMonths rents.

(** [rentsAdj.reduce((a, b) => a + b, 0)] with the vacancy months of
    [spacedMonths(vacCount, months)]. *)
Definition totalRentCollected (startRentMonthly rentGrowthAnnual : Qc)
  (vacCount months : Z) : Qc :=
  Num.sum (rentsAdj (rents startRentMonthly rentGrowthAnnual months)
                    (Calculator.spacedMonths vacCount months)).

End Rental.

(** Notions used to state the further properties. *)
Module Notions.

(** The interest kept in the last ledger entry before year [y]:
    [ledger[y - 2]?.interestPaid || 0]. *)
Definition interestBefore (ledger : list LedgerEntry.t) (y : Z) : Qc :=
  Num.orElse (option_map LedgerEntry.interestPaid (Num.item ledger (y - 2))) 0.

(** The index value that compounds [mi] over [j] months from 100. *)
Definition cpiValue (mi : Qc) (j : nat) : Qc :=
  Num.ofZ 100 * Num.pow (1 + mi) (Z.of_nat j).

(** The rent of month [vm] in the array [l], 0 outside the array. *)
Definition rentAt (l : list Qc) (vm : Z) : Qc :=
  match Num.item l vm with Some v => v | None => 0 end.

End Notions.

(** ** Facts on numbers *)

Module NumFacts.

Lemma Qc_eq_iff (x y : Qc) : x = y <-> (this x == this y)%Q.
Proof. split; [intros ->; reflexivity | apply Qc_is_canon]. Qed.

(** Goals and hypotheses on [Qc] are read on the underlying fractions,
    where linear and non-linear arithmetic is decided. *)
Ltac qc2q :=
  rewrite ?Qc_eq_iff in *;
  unfold Num.pow, Num.ofZ, Num.dec, Qclt, Qcle, Qcminus, Qcdiv, Qcplus,
    Qcmult, Qcopp, Qcinv, Q2Qc in *;
  cbn [this] in *;
  rewrite ?Qred_correct in *.

(** Two arrays of numbers with the same fractions are the same. *)
Lemma list_this_inj (l l' : list Qc) : map this l = map this l' -> l = l'.
Proof.
  revert l'; induction l as [|x l IH]; intros [|y l'] E;
    try discriminate; [reflexivity|].
  cbn [map] in E. injection E as Ex El.
  f_equal; [now apply Qc_decomp | now apply IH].
Qed.

Lemma neq_of_eqb (x y : Qc) : Qc_eq_bool x y = false -> x <> y.
Proof.
  intros H ->. unfold Qc_eq_bool in H.
  destruct (Qc_eq_dec y y); [discriminate | congruence].
Qed.

Lemma ltb_lt (x y : Qc) : Num.ltb x y = true <-> x < y.
Proof.
  unfold Num.ltb. rewrite Qclt_alt. destruct (x ?= y); split; congruence.
Qed.

Lemma leb_le (x y : Qc) : Num.leb x y = true <-> x <= y.
Proof.
  unfold Num.leb. rewrite Qcle_alt. destruct (x ?= y); split; congruence.
Qed.

Lemma ltb_ge (x y : Qc) : Num.ltb x y = false <-> y <= x.
Proof.
  rewrite <- not_true_iff_false, ltb_lt. split.
  - apply Qcnot_lt_le.
  - intros H H'. exact (Qcle_not_lt _ _ H H').
Qed.

Lemma leb_gt (x y : Qc) : Num.leb x y = false <-> y < x.
Proof.
  rewrite <- not_true_iff_false, leb_le. split.
  - apply Qcnot_le_lt.
  - intros H H'. exact (Qclt_not_le _ _ H H').
Qed.

Lemma max_0_nonneg (x : Qc) : 0 <= Num.max 0 x.
Proof.
  unfold Num.max. destruct (Num.ltb 0 x) eqn:E.
  - apply ltb_lt in E. now apply Qclt_le_weak.
  - apply Qcle_refl.
Qed.

Lemma max_0_mono (x y : Qc) : x <= y -> Num.max 0 x <= Num.max 0 y.
Proof.
  intros H. unfold Num.max.
  destruct (Num.ltb 0 x) eqn:Ex, (Num.ltb 0 y) eqn:Ey;
    rewrite ?ltb_lt, ?ltb_ge in *; qc2q; lra.
Qed.

Lemma max_0_zero : Num.max 0 0 = 0.
Proof. reflexivity. Qed.

Lemma pow_succ (x : Qc) (n : Z) :
  (0 <= n)%Z -> Num.pow x (n + 1) = Num.pow x n * x.
Proof. intros Hn. qc2q. rewrite Qpower_plus' by lia. reflexivity. Qed.

Lemma pow_0 (x : Qc) : Num.pow x 0 = 1.
Proof. now qc2q. Qed.

Lemma pow_opp (x : Qc) (n : Z) : Num.pow x (- n) = / Num.pow x n.
Proof. qc2q. apply Qpower_opp. Qed.

Lemma pow_gt_1 (x : Qc) (n : Z) : 1 < x -> (0 < n)%Z -> 1 < Num.pow x n.
Proof. intros Hx Hn. qc2q. now apply Qpower_1_lt. Qed.

(** Sums. *)
Lemma fold_left_plus_acc (l : list Qc) (a : Qc) :
  fold_left Qcplus l a = a + Num.sum l.
Proof.
  unfold Num.sum. revert a; induction l as [|x l IH]; intros a; simpl.
  - ring.
  - rewrite (IH (a + x)), (IH (0 + x)). ring.
Qed.

Lemma sum_nil : Num.sum [] = 0.
Proof. reflexivity. Qed.

Lemma sum_cons (x : Qc) (l : list Qc) : Num.sum (x :: l) = x + Num.sum l.
Proof.
  unfold Num.sum at 1; simpl. rewrite fold_left_plus_acc. ring.
Qed.

Lemma sum_app (l1 l2 : list Qc) : Num.sum (l1 ++ l2) = Num.sum l1 + Num.sum l2.
Proof.
  induction l1 as [|x l1 IH]; simpl.
  - rewrite sum_nil. ring.
  - rewrite !sum_cons, IH. ring.
Qed.

End NumFacts.

(** ** The amortization engine *)

Module AmortizationFacts.
Import RealROI Aux NumFacts.

Lemma scheduleLoop_length m r count i bal :
  length (scheduleLoop m r count i bal) = count.
Proof.
  revert i bal; induction count as [|k IH]; intros i bal; simpl;
    [reflexivity | now rewrite IH].
Qed.

(** What has been repaid is what the running balance lost. *)
Lemma principal_sum_loop m r count i bal :
  Num.sum (map Row.principal (scheduleLoop m r count i bal))
  = bal - runningBalance m r count bal.
Proof.
  revert i bal; induction count as [|k IH]; intros i bal.
  - simpl. rewrite sum_nil. ring.
  - cbn [scheduleLoop map Row.principal runningBalance].
    rewrite sum_cons, IH. ring.
Qed.

(** The distance of the running balance to [m / r] grows by the factor
    [1 + r] at every turn. *)
Lemma runningBalance_closed m r count bal :
  r <> 0 ->
  runningBalance m r count bal
  = m / r - (m / r - bal) * Num.pow (1 + r) (Z.of_nat count).
Proof.
  intros Hr. revert bal; induction count as [|k IH]; intros bal.
  - cbn [runningBalance Z.of_nat]. rewrite pow_0. field. exact Hr.
  - cbn [runningBalance]. rewrite IH.
    rewrite Nat2Z.inj_succ, <- Z.add_1_r, pow_succ by lia.
    field. exact Hr.
Qed.

Lemma paymentDenominator_bounds r n :
  0 < r -> (0 < n)%Z ->
  0 < paymentDenominator r n /\ paymentDenominator r n < 1.
Proof.
  intros Hr Hn. unfold paymentDenominator. rewrite pow_opp.
  assert (Hx : 1 < Num.pow (1 + r) n) by (apply pow_gt_1; [qc2q; lra | exact Hn]).
  set (x := Num.pow (1 + r) n) in *. clearbody x.
  qc2q.
  assert (H0 : (0 < / x)%Q) by (apply Qinv_lt_0_compat; lra).
  assert (H1 : (/ x < 1)%Q).
  { change (/ x < / 1)%Q. apply -> Qinv_lt_contravar; lra. }
  split; lra.
Qed.

(** With the payment of the formula the loan is repaid after exactly
    [n] months. *)
Lemma runningBalance_final loan r (n : Z) :
  0 < r -> (0 < n)%Z ->
  runningBalance (monthlyPayment loan r n) r (Z.to_nat n) loan = 0.
Proof.
  intros Hr Hn.
  assert (Hr0 : r <> 0) by (intros ->; now apply Qclt_not_eq in Hr).
  rewrite runningBalance_closed by exact Hr0.
  rewrite Z2Nat.id by lia.
  destruct (paymentDenominator_bounds r n Hr Hn) as [Hd _].
  assert (Hx : 1 < Num.pow (1 + r) n) by (apply pow_gt_1; [qc2q; lra | exact Hn]).
  unfold monthlyPayment, paymentDenominator in *.
  rewrite pow_opp in *.
  set (x := Num.pow (1 + r) n) in *. clearbody x.
  assert (Hx0 : x <> 0) by (intros ->; revert Hx; qc2q; lra).
  assert (Hd0 : 1 - / x <> 0) by (intros E; rewrite E in Hd; revert Hd; qc2q; lra).
  field. repeat split; try assumption.
  intros E. revert Hx E. qc2q. intros; lra.
Qed.

(** The payment covers the interest on the whole loan. *)
Lemma payment_covers_interest loan r n :
  0 <= loan -> 0 < r -> (0 < n)%Z -> loan * r <= monthlyPayment loan r n.
Proof.
  intros Hl Hr Hn.
  destruct (paymentDenominator_bounds r n Hr Hn) as [Hd0 Hd1].
  unfold monthlyPayment. set (dn := paymentDenominator r n) in *. clearbody dn.
  assert (E : loan * r = (loan * r / dn) * dn).
  { field. intros ->. revert Hd0. qc2q. lra. }
  assert (Hy : 0 <= loan * r / dn).
  { unfold Qcdiv. qc2q.
    apply Qmult_le_0_compat; [nra | apply Qlt_le_weak, Qinv_lt_0_compat; lra]. }
  set (y := loan * r / dn) in *. clearbody y. rewrite E at 1.
  revert Hy Hd0 Hd1. clear. intros. qc2q. nra.
Qed.

(** While the payment covers the interest, no row of the loop shows a
    balance above the floored balance the loop started from ... *)
Lemma loop_balance_bound m r count i bal :
  0 < r -> bal * r <= m ->
  Forall (fun row => Row.balance row <= Num.max 0 bal)
         (scheduleLoop m r count i bal).
Proof.
  intros Hr. revert i bal; induction count as [|k IH]; intros i bal Hb.
  - constructor.
  - cbn [scheduleLoop].
    assert (Hstep : bal - (m - bal * r) <= bal) by (revert Hb; qc2q; lra).
    assert (Hinv : (bal - (m - bal * r)) * r <= m)
      by (revert Hr Hb; qc2q; intros; nra).
    constructor.
    + cbn [Row.balance]. now apply max_0_mono.
    + eapply Forall_impl; [| apply (IH (i + 1)%Z _ Hinv)].
      intros row Hrow. cbn beta in Hrow.
      eapply Qcle_trans; [exact Hrow | now apply max_0_mono].
Qed.

(** ... and the balance column never goes up. *)
Lemma loop_balance_sorted m r count i bal :
  0 < r -> bal * r <= m ->
  nonIncreasing (map Row.balance (scheduleLoop m r count i bal)).
Proof.
  intros Hr. revert i bal; induction count as [|k IH]; intros i bal Hb.
  - constructor.
  - cbn [scheduleLoop map Row.balance].
    assert (Hinv : (bal - (m - bal * r)) * r <= m)
      by (revert Hr Hb; qc2q; intros; nra).
    constructor.
    + apply IH, Hinv.
    + pose proof (loop_balance_bound m r k (i + 1)%Z _ Hr Hinv) as Hbound.
      destruct k as [|k']; [constructor|].
      cbn [scheduleLoop map Row.balance] in *.
      constructor. inversion Hbound; subst. assumption.
Qed.

Lemma loop_balance_nonneg m r count i bal :
  Forall (fun b => 0 <= b) (map Row.balance (scheduleLoop m r count i bal)).
Proof.
  revert i bal; induction count as [|k IH]; intros i bal; cbn [scheduleLoop map].
  - constructor.
  - constructor; [apply max_0_nonneg | apply IH].
Qed.

(** The balance shown in row [j] is the floored running balance. *)
Lemma loop_balance_nth m r count i bal j :
  (j < count)%nat ->
  option_map Row.balance (nth_error (scheduleLoop m r count i bal) j)
  = Some (Num.max 0 (runningBalance m r (S j) bal)).
Proof.
  revert i bal j; induction count as [|k IH]; intros i bal j Hj; [lia|].
  destruct j as [|j]; cbn [scheduleLoop nth_error option_map].
  - reflexivity.
  - rewrite IH by lia. reflexivity.
Qed.

Lemma monthlyRate_pos rateAPR : 0 < rateAPR -> 0 < monthlyRate rateAPR.
Proof.
  intros H. unfold monthlyRate.
  assert (Hr : 0 < rateAPR / Num.ofZ 12).
  { unfold Qcdiv. qc2q. apply Qmult_lt_0_compat; [exact H | reflexivity]. }
  destruct (Num.leb (rateAPR / Num.ofZ 12) 0) eqn:E; [| exact Hr].
  apply leb_le in E. exfalso. exact (Qclt_not_le _ _ Hr E).
Qed.

Lemma monthlyRate_clamped rateAPR : rateAPR <= 0 -> monthlyRate rateAPR = guardRate.
Proof.
  intros H. unfold monthlyRate.
  destruct (Num.leb (rateAPR / Num.ofZ 12) 0) eqn:E; [reflexivity|].
  apply leb_gt in E. exfalso. revert H E. unfold Qcdiv. qc2q.
  intros H E.
  assert ((this rateAPR * / inject_Z 12 <= 0)%Q).
  { setoid_replace (0%Q) with ((0 * / inject_Z 12)%Q) by reflexivity.
    apply Qmult_le_compat_r; [exact H | discriminate]. }
  lra.
Qed.

End AmortizationFacts.

(** ** Properties of the amortization schedule *)

Section ScheduleProperties.
Import RealROI Aux NumFacts AmortizationFacts.

Variables (loan rateAPR : Qc) (termYears : Z).

(** C1.  For a positive loan, a positive annual rate and a positive
    whole number of years, the [principal] column of the rows returned
    by [amortizationSchedule] sums to the loan, exactly in rational
    arithmetic. *)
Theorem principal_column_sums_to_loan :
  0 < loan -> 0 < rateAPR -> (0 < termYears)%Z ->
  Num.sum (map Row.principal
             (Schedule.rows (amortizationSchedule loan rateAPR termYears)))
  = loan.
Proof.
  intros Hl Hr Ht. unfold amortizationSchedule.
  cbn [Schedule.rows]. rewrite principal_sum_loop.
  rewrite runningBalance_final by (try apply monthlyRate_pos; auto; lia).
  ring.
Qed.

(** C2.  Under the same conditions the [balance] column never goes up
    from one row to the next, is never negative, and is 0 in the final
    row, the row of month [12 * termYears]. *)
Theorem balance_column_descends_to_zero :
  0 < loan -> 0 < rateAPR -> (0 < termYears)%Z ->
  let rs := Schedule.rows (amortizationSchedule loan rateAPR termYears) in
  nonIncreasing (map Row.balance rs)
  /\ Forall (fun b => 0 <= b) (map Row.balance rs)
  /\ length rs = Z.to_nat (termYears * 12)
  /\ option_map Row.balance (Num.item rs (termYears * 12 - 1)) = Some 0.
Proof.
  intros Hl Hr Ht rs. subst rs.
  unfold amortizationSchedule. cbn [Schedule.rows].
  pose proof (monthlyRate_pos rateAPR Hr) as Hr'.
  set (r := monthlyRate rateAPR) in *.
  assert (Hn : (0 < termYears * 12)%Z) by lia.
  repeat split.
  - apply loop_balance_sorted; [exact Hr' |].
    apply payment_covers_interest; [now apply Qclt_le_weak | exact Hr' | exact Hn].
  - apply loop_balance_nonneg.
  - apply scheduleLoop_length.
  - unfold Num.item.
    destruct (termYears * 12 - 1 <? 0)%Z eqn:E; [apply Z.ltb_lt in E; lia|].
    rewrite loop_balance_nth by lia.
    replace (S (Z.to_nat (termYears * 12 - 1))) with (Z.to_nat (termYears * 12)) by lia.
    rewrite runningBalance_final by assumption.
    reflexivity.
Qed.

(** C9.  Every annual rate that is zero or negative is replaced by the
    monthly rate 1e-7 before the payment is computed: for a principal
    that is not negative and a positive whole number of years the
    denominator [1 - (1 + r)^(-n)] of the payment and the power it
    inverts are not zero, the schedule has its [12 * termYears] rows,
    and it is the schedule of the rate 0. *)
Theorem nonpositive_rate_is_clamped :
  0 <= loan -> (0 < termYears)%Z -> rateAPR <= 0 ->
  let n := (termYears * 12)%Z in
  let schedule := amortizationSchedule loan rateAPR termYears in
  monthlyRate rateAPR = guardRate
  /\ Num.pow (1 + monthlyRate rateAPR) n <> 0
  /\ paymentDenominator (monthlyRate rateAPR) n <> 0
  /\ Schedule.paymentMonthly schedule
     = (loan * guardRate) / paymentDenominator guardRate n
  /\ length (Schedule.rows schedule) = Z.to_nat n
  /\ schedule = amortizationSchedule loan 0 termYears.
Proof.
  intros Hl Ht Hr n schedule. subst schedule n.
  pose proof (monthlyRate_clamped rateAPR Hr) as E.
  assert (Hg : 0 < guardRate) by reflexivity.
  assert (Hn : (0 < termYears * 12)%Z) by lia.
  destruct (paymentDenominator_bounds guardRate _ Hg Hn) as [Hd _].
  assert (Hx : 1 < Num.pow (1 + guardRate) (termYears * 12))
    by (apply pow_gt_1; [reflexivity | exact Hn]).
  unfold amortizationSchedule. cbn [Schedule.paymentMonthly Schedule.rows].
  rewrite E, (monthlyRate_clamped 0) by apply Qcle_refl.
  repeat split.
  - intros E0. rewrite E0 in Hx. revert Hx. qc2q. lra.
  - intros E0. rewrite E0 in Hd. revert Hd. qc2q. lra.
  - apply scheduleLoop_length.
Qed.

End ScheduleProperties.

Lemma principal_column_sums_to_loan_witness :
  Num.sum (map Row.principal
             (Schedule.rows
                (RealROI.amortizationSchedule (Num.ofZ 240000) (Num.dec 65 1000) 30)))
  = Num.ofZ 240000.
Proof.
  apply principal_column_sums_to_loan; reflexivity.
Defined.

Lemma balance_column_descends_to_zero_witness :
  let rs := Schedule.rows
              (RealROI.amortizationSchedule (Num.ofZ 240000) (Num.dec 65 1000) 30) in
  Aux.nonIncreasing (map Row.balance rs)
  /\ Forall (fun b => 0 <= b) (map Row.balance rs)
  /\ length rs = 360%nat
  /\ option_map Row.balance (Num.item rs 359) = Some 0.
Proof.
  apply (balance_column_descends_to_zero (Num.ofZ 240000) (Num.dec 65 1000) 30);
    reflexivity.
Defined.

Lemma nonpositive_rate_is_clamped_witness :
  RealROI.monthlyRate (Num.dec (-3) 100) = RealROI.guardRate
  /\ RealROI.amortizationSchedule (Num.ofZ 1000) (Num.dec (-3) 100) 1
     = RealROI.amortizationSchedule (Num.ofZ 1000) 0 1.
Proof.
  pose proof (nonpositive_rate_is_clamped (Num.ofZ 1000) (Num.dec (-3) 100) 1) as H.
  destruct H as (H1 & _ & _ & _ & _ & H6);
    [discriminate | reflexivity | discriminate | ].
  split; [exact H1 | exact H6].
Defined.

(** ** The financial summarizer and the inflation adjuster *)

Section SummaryAndDeflation.
Import RealROI.

(** The balance reported for an empty window: the first row's, or 0 for
    an empty schedule. *)
Lemma first_balance_or_zero (rows : list Row.t) :
  (if (0 <? Z.of_nat (length rows))%Z
   then match Num.item rows 0 with Some r0 => Row.balance r0 | None => 0 end
   else 0)
  = match rows with r0 :: _ => Row.balance r0 | [] => 0 end.
Proof. destruct rows; reflexivity. Qed.

(** C6.  [summarizeFinancials(rows, 0)] returns zero principal paid,
    zero interest paid and the balance of the first row, or 0 when
    [rows] is empty; so does every call whose window
    [min(rows.length, years * 12)] is zero months. *)
Theorem summarize_empty_window (rows : list Row.t) :
  let zeroWindow :=
    Financials.mk 0 0 (match rows with r0 :: _ => Row.balance r0 | [] => 0 end) in
  summarizeFinancials rows 0 = zeroWindow
  /\ forall years : Z,
       Z.min (Z.of_nat (length rows)) (years * 12) = 0%Z ->
       summarizeFinancials rows years = zeroWindow.
Proof.
  intros zeroWindow. subst zeroWindow.
  assert (H : forall years : Z,
             Z.min (Z.of_nat (length rows)) (years * 12) = 0%Z ->
             summarizeFinancials rows years
             = Financials.mk 0 0
                 (match rows with r0 :: _ => Row.balance r0 | [] => 0 end)).
  { intros years Hw. unfold summarizeFinancials. rewrite Hw.
    cbn [Z.eqb]. now rewrite first_balance_or_zero. }
  split; [apply H; lia | exact H].
Qed.

(** C7.  [toReal] leaves an amount unchanged when the two index values
    are the same non-zero value, and deflating from [a] to [b] and then
    from [b] to [c] is deflating from [a] to [c], for non-zero [b] and
    [c]; both exactly in rational arithmetic. *)
Theorem toReal_identity_and_composition (x a b c base : Qc) :
  base <> 0 -> b <> 0 -> c <> 0 ->
  toReal x base base = x
  /\ toReal (toReal x a b) b c = toReal x a c.
Proof.
  intros Hbase Hb Hc. unfold toReal. split; field; auto.
Qed.

End SummaryAndDeflation.

Lemma summarize_empty_window_witness :
  RealROI.summarizeFinancials [] 5 = Financials.mk 0 0 0
  /\ RealROI.summarizeFinancials [Row.mk 1 (Num.ofZ 10) 1 (Num.ofZ 9) (Num.ofZ 91)] 0
     = Financials.mk 0 0 (Num.ofZ 91).
Proof.
  split.
  - apply (proj2 (summarize_empty_window []) 5%Z). reflexivity.
  - apply (proj2 (summarize_empty_window
                    [Row.mk 1 (Num.ofZ 10) 1 (Num.ofZ 9) (Num.ofZ 91)]) 0%Z).
    reflexivity.
Defined.

Lemma toReal_identity_and_composition_witness :
  RealROI.toReal (Num.ofZ 1000) (Num.dec 2174 10) (Num.dec 2174 10) = Num.ofZ 1000
  /\ RealROI.toReal (RealROI.toReal (Num.ofZ 1000) (Num.ofZ 100) (Num.ofZ 103))
       (Num.ofZ 103) (Num.ofZ 106)
     = RealROI.toReal (Num.ofZ 1000) (Num.ofZ 100) (Num.ofZ 106).
Proof.
  split.
  - apply (toReal_identity_and_composition (Num.ofZ 1000) 1 1 1 (Num.dec 2174 10));
      discriminate.
  - apply (toReal_identity_and_composition (Num.ofZ 1000) (Num.ofZ 100)
             (Num.ofZ 103) (Num.ofZ 106) 1); discriminate.
Defined.

(** ** The benchmark projector *)

Module BenchmarkFacts.
Import RealROI Aux NumFacts.

Lemma indexedFrom_cons t x l :
  indexedFrom t (x :: l) = (t, x) :: indexedFrom (S t) l.
Proof. reflexivity. Qed.

Lemma indexedFrom_length t l : length (indexedFrom t l) = length l.
Proof.
  unfold indexedFrom. rewrite length_combine, length_seq. apply Nat.min_id.
Qed.

Lemma indexedFrom_nth t l j :
  (j < length l)%nat ->
  nth j (indexedFrom t l) (O, 0) = ((t + j)%nat, nth j l 0).
Proof.
  revert t j; induction l as [|x l IH]; intros t j Hj; simpl in Hj; [lia|].
  rewrite indexedFrom_cons. destruct j as [|j]; cbn [nth].
  - now rewrite Nat.add_0_r.
  - rewrite IH by lia. now rewrite Nat.add_succ_r.
Qed.

(** The entries of index below [t + k] are those of the first [k]
    elements. *)
Lemma indexedFrom_filter_below t k l :
  filter (fun p => (fst p <? t + k)%nat) (indexedFrom t l)
  = indexedFrom t (firstn k l).
Proof.
  revert t k; induction l as [|x l IH]; intros t k.
  - now rewrite firstn_nil.
  - rewrite indexedFrom_cons. cbn [filter fst].
    destruct k as [|k].
    + replace (t <? t + 0)%nat with false by (symmetry; apply Nat.ltb_ge; lia).
      etransitivity; [| exact (IH (S t) O)]. apply filter_ext_in.
      intros [i c] Hin. cbn [fst].
      apply in_combine_l, in_seq in Hin.
      transitivity false; [apply Nat.ltb_ge; lia | symmetry; apply Nat.ltb_ge; lia].
    + replace (t <? t + S k)%nat with true by (symmetry; apply Nat.ltb_lt; lia).
      cbn [firstn]. rewrite indexedFrom_cons. f_equal.
      rewrite <- IH. apply filter_ext. intros [i c]. cbn [fst].
      now rewrite Nat.add_succ_r.
Qed.

(** The loop of [terminalWealthFromCashFlows] adds to [wealth] the
    terms of the indices below [curve.length] and nothing else. *)
Lemma wealthLoop_sum curve T rest t wealth :
  wealthLoop curve T rest t wealth
  = wealth
    + Num.sum (map (fun p => snd p * (nth T curve 0 / nth (fst p) curve 0))
                   (filter (fun p => (fst p <? length curve)%nat)
                           (indexedFrom t rest))).
Proof.
  revert t wealth; induction rest as [|cf rest IH]; intros t wealth.
  - unfold indexedFrom. cbn [wealthLoop length seq combine filter map].
    rewrite sum_nil. ring.
  - cbn [wealthLoop]. rewrite indexedFrom_cons. cbn [filter fst].
    destruct (length curve <=? t)%nat eqn:E.
    + apply Nat.leb_le in E.
      replace (t <? length curve)%nat with false by (symmetry; apply Nat.ltb_ge; lia).
      apply IH.
    + apply Nat.leb_gt in E.
      replace (t <? length curve)%nat with true by (symmetry; apply Nat.ltb_lt; lia).
      rewrite IH. cbn [map fst snd]. rewrite sum_cons. ring.
Qed.

Lemma terminalWealth_horizonSum curve cashFlowsReal :
  terminalWealthFromCashFlows curve cashFlowsReal = horizonSum curve cashFlowsReal.
Proof.
  unfold terminalWealthFromCashFlows, horizonSum.
  destruct curve as [|c curve].
  - cbn [length Z.of_nat Z.sub Z.ltb orb Z.add Z.opp Z.compare].
    rewrite (indexedFrom_filter_below O O). cbn. reflexivity.
  - set (cv := c :: curve).
    replace ((Z.of_nat (length cv) - 1 <? 0)%Z) with false
      by (symmetry; apply Z.ltb_ge; subst cv; cbn [length]; lia).
    replace (length cv =? 0)%nat with false by reflexivity.
    cbn [orb]. rewrite wealthLoop_sum.
    replace (Z.to_nat (Z.of_nat (length cv) - 1)) with (length cv - 1)%nat by lia.
    ring.
Qed.

(** The curve built by the loop of [realEquityCurve]. *)
Lemma curveLoop_compound feeMo dividends cpiGrowth rest t curve :
  (t + length rest <= length dividends)%nat ->
  (t + length rest <= length cpiGrowth)%nat ->
  curveLoop feeMo dividends cpiGrowth rest t curve
  = Some (curve
          ++ compound (last curve 0)
               (map (fun p => growthFactor (snd p) (nth (fst p) dividends 0)
                                (nth (fst p) cpiGrowth 0) feeMo)
                    (indexedFrom t rest))).
Proof.
  revert t curve; induction rest as [|ret rest IH]; intros t curve Hd Hc.
  - cbn. now rewrite app_nil_r.
  - cbn [curveLoop length] in *.
    destruct (nth_error dividends t) as [div|] eqn:Ed;
      [| apply nth_error_None in Ed; lia].
    destruct (nth_error cpiGrowth t) as [cpi|] eqn:Ec;
      [| apply nth_error_None in Ec; lia].
    rewrite IH by lia.
    rewrite last_last, indexedFrom_cons. cbn [map compound fst snd].
    rewrite (nth_error_nth _ _ 0 Ed), (nth_error_nth _ _ 0 Ec).
    now rewrite <- app_assoc.
Qed.

Lemma compound_length c gs : length (compound c gs) = length gs.
Proof.
  revert c; induction gs as [|g gs IH]; intros c; cbn; [reflexivity|].
  now rewrite IH.
Qed.

(** Each element is the one before it times the factor of the period. *)
Lemma compound_step c gs t :
  (t < length gs)%nat ->
  nth (S t) (c :: compound c gs) 0 = nth t (c :: compound c gs) 0 * nth t gs 0.
Proof.
  revert c t; induction gs as [|g gs IH]; intros c t Ht; cbn [length] in Ht; [lia|].
  destruct t as [|t].
  - reflexivity.
  - cbn [compound nth]. apply (IH (c * g) t). lia.
Qed.

Lemma compound_ones c gs :
  Forall (eq 1) gs -> compound c gs = repeat c (length gs).
Proof.
  intros H. revert c. induction H as [|g gs <- _ IH]; intros c; cbn; [reflexivity|].
  replace (c * 1) with c by ring. now rewrite IH.
Qed.

Lemma nth_all_zero (l : list Qc) i : Forall (eq 0) l -> nth i l 0 = 0.
Proof.
  intros H. revert i; induction H as [|x l <- _ IH]; intros [|i]; cbn; auto.
Qed.

Lemma nth_repeat_one k i : (i < k)%nat -> nth i (repeat 1 k) 0 = 1.
Proof.
  revert i; induction k as [|k IH]; intros i Hi; [lia|].
  destruct i as [|i]; cbn; [reflexivity | apply IH; lia].
Qed.

Lemma indexedFrom_snd t l : map snd (indexedFrom t l) = l.
Proof.
  revert t; induction l as [|x l IH]; intros t; [reflexivity|].
  rewrite indexedFrom_cons. cbn [map snd]. now rewrite IH.
Qed.

(** Without fee, return, dividend or inflation the factor of a period
    is 1. *)
Lemma growthFactor_flat : growthFactor 0 0 0 (feeMonthly 0) = 1.
Proof. apply Qc_is_canon. reflexivity. Qed.

(** On a curve that is 1 throughout, the terminal wealth is the sum of
    the cash flows that fit in it. *)
Lemma terminalWealth_flat_curve k cashFlowsReal :
  (length cashFlowsReal <= k)%nat ->
  terminalWealthFromCashFlows (repeat 1 k) cashFlowsReal = Num.sum cashFlowsReal.
Proof.
  intros Hk. rewrite terminalWealth_horizonSum. unfold horizonSum.
  rewrite repeat_length.
  rewrite (indexedFrom_filter_below O k), firstn_all2 by exact Hk.
  rewrite <- (indexedFrom_snd O cashFlowsReal) at 2.
  f_equal. apply map_ext_in. intros [i c] Hin. cbn [fst snd].
  apply in_combine_l, in_seq in Hin.
  rewrite !nth_repeat_one by lia. field. discriminate.
Qed.

End BenchmarkFacts.

Section BenchmarkProperties.
Import RealROI Aux NumFacts BenchmarkFacts.

(** C5.  For series of equal length [realEquityCurve] returns a curve
    with one element more than there are periods, whose first element
    is 1 and where each further element is the one before it times
    [(1 + returns[t] + dividends[t]) * (1 - (feeBpsPerYear / 10000) / 12)
     / (1 + cpiGrowth[t])]. *)
Theorem realEquityCurve_compounds (returns dividends cpiGrowth : list Qc)
  (feeBpsPerYear : Qc) :
  length dividends = length returns ->
  length cpiGrowth = length returns ->
  exists curve,
    realEquityCurve returns dividends cpiGrowth feeBpsPerYear = Some curve
    /\ length curve = S (length returns)
    /\ nth 0 curve 0 = 1
    /\ forall t, (t < length returns)%nat ->
         nth (S t) curve 0
         = nth t curve 0
           * ((1 + nth t returns 0 + nth t dividends 0)
              * (1 - (feeBpsPerYear / Num.ofZ 10000) / Num.ofZ 12)
              / (1 + nth t cpiGrowth 0)).
Proof.
  intros Hd Hc. unfold realEquityCurve.
  rewrite curveLoop_compound by lia.
  eexists; split; [reflexivity|].
  cbn [last app].
  set (gs := map _ (indexedFrom O returns)).
  assert (Hlen : length gs = length returns)
    by (subst gs; now rewrite length_map, indexedFrom_length).
  repeat split.
  - cbn [length]. now rewrite compound_length, Hlen.
  - intros t Ht. rewrite compound_step by lia.
    f_equal. subst gs.
    set (f := fun p : nat * Qc => growthFactor _ _ _ _).
    rewrite (nth_indep _ 0 (f (O, 0)))
      by (rewrite length_map, indexedFrom_length; exact Ht).
    rewrite map_nth, indexedFrom_nth by exact Ht.
    subst f. cbn [fst snd Nat.add].
    unfold growthFactor, feeMonthly. f_equal. ring.
Qed.

(** C10.  [terminalWealthFromCashFlows] is the sum, over the indices
    [t < curve.length] only, of [cashFlowsReal[t] * curve[last] / curve[t]]:
    the cash flows past the end of the curve contribute nothing, and
    dropping them does not change the result. *)
Theorem flows_past_the_curve_are_ignored (curve cashFlowsReal : list Qc) :
  terminalWealthFromCashFlows curve cashFlowsReal
  = horizonSum curve cashFlowsReal
  /\ terminalWealthFromCashFlows curve cashFlowsReal
     = terminalWealthFromCashFlows curve (firstn (length curve) cashFlowsReal).
Proof.
  split; [apply terminalWealth_horizonSum|].
  rewrite !terminalWealth_horizonSum. unfold horizonSum.
  rewrite !(indexedFrom_filter_below O (length curve)).
  now rewrite firstn_firstn, Nat.min_id.
Qed.

(** C8, as the code has it.  With [feeBpsPerYear = 0] and every
    per-period return, dividend and CPI growth equal to zero, the
    terminal wealth over the curve of [realEquityCurve] is the sum of
    the contributions, for every contribution sequence no longer than
    the curve. *)
Theorem flat_benchmark_keeps_contributions
  (returns dividends cpiGrowth cashFlowsReal : list Qc) :
  Forall (eq 0) returns -> Forall (eq 0) dividends -> Forall (eq 0) cpiGrowth ->
  length dividends = length returns ->
  length cpiGrowth = length returns ->
  (length cashFlowsReal <= S (length returns))%nat ->
  exists curve,
    realEquityCurve returns dividends cpiGrowth 0 = Some curve
    /\ length curve = S (length returns)
    /\ terminalWealthFromCashFlows curve cashFlowsReal = Num.sum cashFlowsReal.
Proof.
  intros Hr Hdv Hcp Hd Hc Hlen. unfold realEquityCurve.
  rewrite curveLoop_compound by lia.
  eexists; split; [reflexivity|].
  cbn [last app].
  rewrite compound_ones.
  - rewrite length_map, indexedFrom_length.
    change (1 :: repeat 1 (length returns)) with (repeat 1 (S (length returns))).
    split; [apply repeat_length | now apply terminalWealth_flat_curve].
  - apply Forall_map, Forall_forall. intros [i c] Hin. cbn [fst snd].
    apply in_combine_r in Hin.
    rewrite Forall_forall in Hr. rewrite <- (Hr c Hin).
    rewrite !nth_all_zero by assumption.
    symmetry. apply growthFactor_flat.
Qed.

End BenchmarkProperties.

Lemma realEquityCurve_compounds_witness :
  exists curve,
    RealROI.realEquityCurve [Num.dec 1 100; Num.dec (-2) 100]
      [Num.dec 1 1000; Num.dec 1 1000] [Num.dec 2 1000; Num.dec 3 1000]
      (Num.ofZ 3) = Some curve
    /\ length curve = 3%nat
    /\ nth 0 curve 0 = 1.
Proof.
  destruct (realEquityCurve_compounds [Num.dec 1 100; Num.dec (-2) 100]
              [Num.dec 1 1000; Num.dec 1 1000] [Num.dec 2 1000; Num.dec 3 1000]
              (Num.ofZ 3) eq_refl eq_refl) as (curve & H1 & H2 & H3 & _).
  exists curve. repeat split; assumption.
Defined.

Lemma flat_benchmark_keeps_contributions_witness :
  exists curve,
    RealROI.realEquityCurve [0; 0] [0; 0] [0; 0] 0 = Some curve
    /\ length curve = 3%nat
    /\ RealROI.terminalWealthFromCashFlows curve
         [Num.ofZ 100; Num.ofZ 50; Num.ofZ (-20)]
       = Num.sum [Num.ofZ 100; Num.ofZ 50; Num.ofZ (-20)].
Proof.
  apply (flat_benchmark_keeps_contributions [0; 0] [0; 0] [0; 0]
           [Num.ofZ 100; Num.ofZ 50; Num.ofZ (-20)]);
    repeat constructor.
Defined.

(** C8, as the specification states it, does not hold: the curve is in
    real terms, so with no fee, no return and no dividend but 1% of
    inflation per period, two contributions of 100 end below 200. *)
Lemma flat_benchmark_counterexample :
  RealROI.realEquityCurve [0; 0] [0; 0] [Num.dec 1 100; Num.dec 1 100] 0
  = Some [1; Num.dec 100 101; Num.dec 10000 10201]
  /\ (length [Num.ofZ 100; Num.ofZ 100]
      <= length [1%Qc; Num.dec 100 101; Num.dec 10000 10201])%nat
  /\ RealROI.terminalWealthFromCashFlows
       [1; Num.dec 100 101; Num.dec 10000 10201] [Num.ofZ 100; Num.ofZ 100]
     <> Num.sum [Num.ofZ 100; Num.ofZ 100].
Proof.
  split; [| split].
  - unfold RealROI.realEquityCurve. cbn [RealROI.curveLoop nth_error last app].
    apply f_equal, NumFacts.list_this_inj. vm_compute. reflexivity.
  - cbn. lia.
  - intros E. apply (f_equal this) in E. vm_compute in E. discriminate E.
Qed.

(** ** The return solver *)

Module SolverFacts.
Import Solver NumFacts.

(** The loop hands back a rate only through its tolerance test. *)
Lemma bisectLoop_within_tolerance cashflows tol iters :
  forall low high fLow fHigh rate,
    bisectLoop cashflows tol iters low high fLow fHigh = Some rate ->
    Num.abs (npv rate cashflows) < tol.
Proof.
  induction iters as [|k IH]; intros low high fLow fHigh rate H;
    cbn [bisectLoop] in H; [discriminate|].
  destruct (Num.ltb (Num.abs (npv ((low + high) / Num.ofZ 2) cashflows)) tol) eqn:E.
  - injection H as <-. now apply ltb_lt.
  - destruct (Num.ltb (fLow * npv ((low + high) / Num.ofZ 2) cashflows) 0);
      eapply IH; exact H.
Qed.

End SolverFacts.

(** C4.  When the NPV at [low] and the NPV at [high] have the same sign
    (their product is positive) [irrBisection] returns [null]; and a
    rate it returns has an NPV whose absolute value is below the
    tolerance. *)
Theorem irrBisection_brackets_or_gives_up (cashflows : list Qc)
  (low high tol : Qc) (maxIter : nat) :
  (0 < Solver.npv low cashflows * Solver.npv high cashflows ->
   Solver.irrBisection cashflows low high tol maxIter = None)
  /\ (forall rate,
       Solver.irrBisection cashflows low high tol maxIter = Some rate ->
       Num.abs (Solver.npv rate cashflows) < tol).
Proof.
  unfold Solver.irrBisection. split.
  - intros H. apply NumFacts.ltb_lt in H. now rewrite H.
  - intros rate H.
    destruct (Num.ltb 0 (Solver.npv low cashflows * Solver.npv high cashflows));
      [discriminate|].
    eapply SolverFacts.bisectLoop_within_tolerance. exact H.
Qed.

Lemma irrBisection_brackets_or_gives_up_witness :
  Solver.irrBisectionDefault [Num.ofZ 100; Num.ofZ 110] = None
  /\ exists rate,
       Solver.irrBisectionDefault [Num.ofZ (-100); Num.ofZ 110] = Some rate
       /\ Num.abs (Solver.npv rate [Num.ofZ (-100); Num.ofZ 110])
          < Solver.defaultTol.
Proof.
  split.
  - apply (proj1 (irrBisection_brackets_or_gives_up [Num.ofZ 100; Num.ofZ 110]
                    Solver.defaultLow Solver.defaultHigh Solver.defaultTol
                    Solver.defaultMaxIter)).
    vm_compute. reflexivity.
  - destruct (Solver.irrBisectionDefault [Num.ofZ (-100); Num.ofZ 110])
      as [rate|] eqn:E.
    + exists rate. split; [reflexivity|].
      apply (proj2 (irrBisection_brackets_or_gives_up
                      [Num.ofZ (-100); Num.ofZ 110]
                      Solver.defaultLow Solver.defaultHigh Solver.defaultTol
                      Solver.defaultMaxIter)).
      exact E.
    + vm_compute in E. discriminate E.
Defined.

(** ** The result pipelines *)

Module PipelineFacts.
Import NumFacts.

Lemma sum_map_scale {A : Type} (f : A -> Qc) (k : Qc) (l : list A) :
  Num.sum (map (fun a => f a * k) l) = Num.sum (map f l) * k.
Proof.
  induction l as [|a l IH]; cbn [map].
  - rewrite sum_nil. ring.
  - rewrite !sum_cons, IH. ring.
Qed.

Lemma item_last {A : Type} (l : list A) (x : A) :
  Num.item (l ++ [x]) (Z.of_nat (length l)) = Some x.
Proof.
  unfold Num.item.
  replace (Z.of_nat (length l) <? 0)%Z with false by (symmetry; apply Z.ltb_ge; lia).
  rewrite Nat2Z.id, nth_error_app2, Nat.sub_diag by lia. reflexivity.
Qed.

(** *** [App.jsx] *)

Lemma ledgerEntry_cumulative d y cum ledger :
  LedgerEntry.cumulativeNominalCashFlow (AppJsx.ledgerEntry d y cum ledger)
  = cum + LedgerEntry.nominalCashFlow (AppJsx.ledgerEntry d y cum ledger).
Proof. reflexivity. Qed.

Lemma ledgerLoop_length d count y cum ledger :
  length (AppJsx.ledgerLoop d count y cum ledger) = (length ledger + count)%nat.
Proof.
  revert y cum ledger; induction count as [|k IH]; intros y cum ledger;
    cbn [AppJsx.ledgerLoop].
  - lia.
  - rewrite IH, length_app. cbn [length]. lia.
Qed.

(** The running [cumulativeCashFlow] is the sum of the nominal cash
    flows of the entries pushed so far, and the last entry records it. *)
Lemma ledgerLoop_cumulative d count :
  forall y cum ledger,
    cum = Num.sum (map LedgerEntry.nominalCashFlow ledger) ->
    (0 < count)%nat ->
    let result := AppJsx.ledgerLoop d count y cum ledger in
    exists e,
      Num.item result (Z.of_nat (length result) - 1) = Some e
      /\ LedgerEntry.cumulativeNominalCashFlow e
         = Num.sum (map LedgerEntry.nominalCashFlow result).
Proof.
  induction count as [|k IH]; intros y cum ledger Hcum Hk result; [lia|].
  subst result. cbn [AppJsx.ledgerLoop].
  set (e := AppJsx.ledgerEntry d y cum ledger).
  assert (Hcum' : LedgerEntry.cumulativeNominalCashFlow e
                  = Num.sum (map LedgerEntry.nominalCashFlow (ledger ++ [e]))).
  { rewrite map_app, sum_app. cbn [map]. rewrite sum_cons, sum_nil, <- Hcum.
    subst e. rewrite ledgerEntry_cumulative. ring. }
  destruct k as [|k'].
  - cbn [AppJsx.ledgerLoop]. exists e. split; [| exact Hcum'].
    rewrite length_app. cbn [length].
    replace (Z.of_nat (length ledger + 1) - 1)%Z with (Z.of_nat (length ledger)) by lia.
    apply item_last.
  - apply IH; [exact Hcum' | lia].
Qed.

Lemma final_cumulative d :
  LedgerEntry.cumulativeNominalCashFlow (AppJsx.finalLedgerEntry d)
  = Num.sum (map LedgerEntry.nominalCashFlow (AppJsx.ledger d)).
Proof.
  unfold AppJsx.finalLedgerEntry, AppJsx.ledger.
  destruct (Z.to_nat (AppJsx.timelineYears d)) as [|k] eqn:Ek.
  - cbn [AppJsx.ledgerLoop]. unfold Num.item.
    destruct (AppJsx.timelineYears d - 1 <? 0)%Z; [reflexivity|].
    now rewrite nth_error_nil.
  - destruct (ledgerLoop_cumulative d (S k) 1 0 [] eq_refl ltac:(lia))
      as (e & He & Hsum).
    rewrite ledgerLoop_length in He. cbn [length Nat.add] in He.
    replace (Z.of_nat (S k) - 1)%Z with (AppJsx.timelineYears d - 1)%Z in He by lia.
    rewrite He. exact Hsum.
Qed.

(** *** [App.tsx] *)

Lemma realLoop_sums mi d count :
  forall y realCashFlow realTaxSavings,
    AppTsx.realLoop mi d count y realCashFlow realTaxSavings
    = (realCashFlow
       + Num.sum (map (fun y =>
                         Num.orElse (option_map LedgerEntryTsx.nominalCashFlow
                                       (Num.item (AppTsx.ledger d) y)) 0
                         * AppTsx.yearDeflator mi d y)
                      (AppTsx.yearsFrom y count)),
       realTaxSavings
       + Num.sum (map (fun y =>
                         Num.orElse (option_map LedgerEntryTsx.taxSavings
                                       (Num.item (AppTsx.ledger d) y)) 0
                         * AppTsx.yearDeflator mi d y)
                      (AppTsx.yearsFrom y count))).
Proof.
  induction count as [|k IH]; intros y rcf rts;
    cbn [AppTsx.realLoop AppTsx.yearsFrom map].
  - rewrite sum_nil. f_equal; ring.
  - rewrite IH, !sum_cons. f_equal; ring.
Qed.

End PipelineFacts.

(** What the two variants compute.  In [calculateResults] of [App.jsx]
    the total real ROI is the nominal total (appreciation, principal
    paid, the yearly nominal cash flows and the yearly tax savings)
    deflated once by [toReal] at the index of the end of the timeline:
    every year's flow is deflated at that one index, not at the index
    of its own year.  The variant [App.tsx] multiplies each year's cash
    flow and tax saving by the deflator of that year before it adds
    them, as [App.jsx] itself does month by month for the series of its
    solver. *)
Theorem real_roi_deflation (d : AppJsx.Deal) (mi : Qc) (d' : AppTsx.Deal) :
  let nominalFlows := map LedgerEntry.nominalCashFlow (AppJsx.ledger d) in
  let taxSavings := map LedgerEntry.taxSavings (AppJsx.ledger d) in
  let atEnd x := RealROI.toReal x AppJsx.cpiBase (AppJsx.cpiTimelineEnd d) in
  AppJsx.totalRealROI d
  = atEnd (AppJsx.appreciation d + AppJsx.principalPaid d
           + Num.sum nominalFlows + Num.sum taxSavings)
  /\ AppJsx.totalRealROI d
     = atEnd (AppJsx.appreciation d) + atEnd (AppJsx.principalPaid d)
       + Num.sum (map atEnd nominalFlows) + Num.sum (map atEnd taxSavings)
  /\ AppTsx.totalRealROI mi d'
     = AppTsx.realGains mi d' + AppTsx.realPrincipalPaid mi d'
       + Num.sum (map (fun y =>
                         Num.orElse (option_map LedgerEntryTsx.nominalCashFlow
                                       (Num.item (AppTsx.ledger d') y)) 0
                         * AppTsx.yearDeflator mi d' y)
                      (AppTsx.years d'))
       + Num.sum (map (fun y =>
                         Num.orElse (option_map LedgerEntryTsx.taxSavings
                                       (Num.item (AppTsx.ledger d') y)) 0
                         * AppTsx.yearDeflator mi d' y)
                      (AppTsx.years d')).
Proof.
  intros nominalFlows taxSavings atEnd.
  assert (H1 : AppJsx.totalRealROI d
               = atEnd (AppJsx.appreciation d + AppJsx.principalPaid d
                        + Num.sum nominalFlows + Num.sum taxSavings)).
  { unfold AppJsx.totalRealROI, AppJsx.totalNominalROI, AppJsx.totalTaxSavings.
    now rewrite PipelineFacts.final_cumulative. }
  split; [exact H1 | split].
  - rewrite H1. subst atEnd. unfold RealROI.toReal. cbn beta.
    rewrite !(PipelineFacts.sum_map_scale (fun x : Qc => x)), !map_id. ring.
  - unfold AppTsx.totalRealROI, AppTsx.years.
    rewrite PipelineFacts.realLoop_sums. ring.
Qed.

(** C3.  The inflation adjustment is to be applied per period, each
    period's flow deflated to the base period before the sum is taken.
    [calculateResults] of [App.jsx] misses it for the total real ROI:
    for the deal [shortLoanDeal] the total it returns is the nominal
    total deflated once at the end of the timeline, and it differs from
    the total in which every year's cash flow and tax saving is
    deflated at its own index. *)
Lemma per_period_deflation_counterexample :
  AppJsx.totalRealROI Aux.shortLoanDeal
  = RealROI.toReal (AppJsx.totalNominalROI Aux.shortLoanDeal)
      AppJsx.cpiBase (AppJsx.cpiTimelineEnd Aux.shortLoanDeal)
  /\ AppJsx.totalRealROI Aux.shortLoanDeal
     <> Aux.perPeriodRealROI Aux.shortLoanDeal.
Proof.
  split; [reflexivity|].
  apply NumFacts.neq_of_eqb. vm_compute. reflexivity.
Qed.

(** ** The engine on concrete inputs *)

(** The golden value of the specification: a loan of 240000 at 6.5% over
    30 years costs 1516.96 a month, to the cent. *)
Example payment_golden_value :
  let m := RealROI.monthlyPayment (Num.ofZ 240000)
             (RealROI.monthlyRate (Num.dec 65 1000)) 360 in
  Num.dec 151696 100 <= m /\ m < Num.dec 151697 100.
Proof.
  cbv zeta.
  replace (RealROI.monthlyRate (Num.dec 65 1000)) with (Num.dec 13 2400)
    by (apply Qc_is_canon; reflexivity).
  unfold RealROI.monthlyPayment, RealROI.paymentDenominator.
  NumFacts.qc2q. split.
  - apply Qle_bool_iff. vm_compute. reflexivity.
  - apply Qlt_alt. vm_compute. reflexivity.
Qed.

(** A loan of 1200 at 12% over one year: twelve rows, the last one with
    a balance of 0, and the whole loan counted as principal paid by
    [summarizeFinancials] after one year. *)
Example one_year_schedule :
  let rs := Schedule.rows
              (RealROI.amortizationSchedule (Num.ofZ 1200) (Num.dec 12 100) 1) in
  let summary := RealROI.summarizeFinancials rs 1 in
  (length rs =? 12)%nat
  && match Num.item rs 11 with
     | Some final => Qc_eq_bool (Row.balance final) 0
     | None => false
     end
  && Qc_eq_bool (Financials.principalPaid summary) (Num.ofZ 1200)
  && Qc_eq_bool (Financials.balance summary) 0
  = true.
Proof. vm_compute. reflexivity. Qed.

(** A sign change in the bracket: the solver finds the 10% of the flows
    [-100, 110] within its tolerance. *)
Example bisection_finds_ten_percent :
  match Solver.irrBisectionDefault [Num.ofZ (-100); Num.ofZ 110] with
  | Some rate => Num.ltb (Num.abs (rate - Num.dec 1 10)) (Num.dec 1 1000000000)
  | None => false
  end = true.
Proof. vm_compute. reflexivity. Qed.

(** * Further properties of the engine *)

(** ** Summaries of a schedule *)

Module ScheduleMore.
Import RealROI Aux NumFacts AmortizationFacts.

Lemma scheduleLoop_firstn m r k count i bal :
  (k <= count)%nat ->
  firstn k (scheduleLoop m r count i bal) = scheduleLoop m r k i bal.
Proof.
  revert count i bal; induction k as [|k IH]; intros count i bal Hk.
  - reflexivity.
  - destruct count as [|count]; [lia|].
    cbn [scheduleLoop firstn]. f_equal. apply IH. lia.
Qed.

Lemma interest_sum_loop m r count i bal :
  Num.sum (map Row.principal (scheduleLoop m r count i bal))
  + Num.sum (map Row.interest (scheduleLoop m r count i bal))
  = Num.ofZ (Z.of_nat count) * m.
Proof.
  revert i bal; induction count as [|k IH]; intros i bal.
  - cbn [scheduleLoop map]. rewrite sum_nil. apply Qc_is_canon. reflexivity.
  - cbn [scheduleLoop map Row.principal Row.interest].
    rewrite !sum_cons.
    replace (Num.ofZ (Z.of_nat (S k))) with (Num.ofZ (Z.of_nat k) + 1).
    + specialize (IH (i + 1)%Z (bal - (m - bal * r))).
      set (P := Num.sum (map Row.principal _)) in *.
      set (I := Num.sum (map Row.interest _)) in *.
      replace (m - bal * r + P + (bal * r + I)) with (P + I + m) by ring.
      rewrite IH. ring.
    + rewrite Nat2Z.inj_succ. unfold Z.succ. qc2q. rewrite inject_Z_plus. reflexivity.
Qed.

Lemma runningBalance_app m r j k bal :
  runningBalance m r (j + k) bal = runningBalance m r k (runningBalance m r j bal).
Proof.
  revert bal; induction j as [|j IH]; intros bal; [reflexivity|].
  cbn [Nat.add runningBalance]. apply IH.
Qed.

(** While the payment covers the interest the running balance does not
    rise, and the payment keeps covering the interest. *)
Lemma runningBalance_descends m r k bal :
  0 < r -> bal * r <= m ->
  runningBalance m r k bal <= bal /\ runningBalance m r k bal * r <= m.
Proof.
  intros Hr. revert bal; induction k as [|k IH]; intros bal Hb.
  - split; [apply Qcle_refl | exact Hb].
  - cbn [runningBalance].
    assert (Hstep : bal - (m - bal * r) <= bal) by (revert Hb; qc2q; lra).
    assert (Hinv : (bal - (m - bal * r)) * r <= m)
      by (revert Hr Hb; qc2q; intros; nra).
    destruct (IH _ Hinv) as [H1 H2]. split; [| exact H2].
    eapply Qcle_trans; [exact H1 | exact Hstep].
Qed.

Lemma runningBalance_nonneg loan r (n : Z) k :
  0 <= loan -> 0 < r -> (0 < n)%Z -> (k <= Z.to_nat n)%nat ->
  0 <= runningBalance (monthlyPayment loan r n) r k loan.
Proof.
  intros Hl Hr Hn Hk.
  pose proof (runningBalance_final loan r n Hr Hn) as Hfin.
  replace (Z.to_nat n) with (k + (Z.to_nat n - k))%nat in Hfin by lia.
  rewrite runningBalance_app in Hfin.
  pose proof (payment_covers_interest loan r n Hl Hr Hn) as Hcov.
  destruct (runningBalance_descends _ r k loan Hr Hcov) as [_ Hinv].
  destruct (runningBalance_descends _ r (Z.to_nat n - k) _ Hr Hinv) as [Hle _].
  rewrite Hfin in Hle. exact Hle.
Qed.

Lemma max_0_of_nonneg x : 0 <= x -> Num.max 0 x = x.
Proof.
  intros H. unfold Num.max. destruct (Num.ltb 0 x) eqn:E; [reflexivity|].
  apply ltb_ge in E. now apply Qcle_antisym.
Qed.

(** [summarizeFinancials] on the rows of the loop, for a window of
    [k > 0] months. *)
Lemma summarize_loop m r count bal years :
  (0 < Z.min (Z.of_nat count) (years * 12))%Z ->
  let k := Z.to_nat (Z.min (Z.of_nat count) (years * 12)) in
  let f := summarizeFinancials (scheduleLoop m r count 1 bal) years in
  Financials.principalPaid f = bal - runningBalance m r k bal
  /\ Financials.principalPaid f + Financials.interestPaid f
     = Num.ofZ (Z.of_nat k) * m
  /\ Financials.balance f = Num.max 0 (runningBalance m r k bal).
Proof.
  intros Hpos k f. subst f. unfold summarizeFinancials.
  rewrite scheduleLoop_length.
  destruct (Z.min (Z.of_nat count) (years * 12) =? 0)%Z eqn:E;
    [apply Z.eqb_eq in E; lia|].
  cbn [Financials.principalPaid Financials.interestPaid Financials.balance].
  fold k. rewrite scheduleLoop_firstn by lia.
  split; [apply principal_sum_loop | split; [apply interest_sum_loop |]].
  unfold Num.item.
  destruct (Z.min (Z.of_nat count) (years * 12) - 1 <? 0)%Z eqn:E';
    [apply Z.ltb_lt in E'; lia|].
  pose proof (loop_balance_nth m r count 1 bal
                (Z.to_nat (Z.min (Z.of_nat count) (years * 12) - 1))
                ltac:(lia)) as Hn.
  replace (S (Z.to_nat (Z.min (Z.of_nat count) (years * 12) - 1)))
    with k in Hn by (subst k; lia).
  destruct (nth_error _ _) as [row|]; [| discriminate Hn].
  cbn [option_map] in Hn. now injection Hn.
Qed.

(** Within the term the running balance is what [summarizeFinancials]
    reports, and with the principal paid it makes the loan. *)
Lemma schedule_summary loan rateAPR termYears years :
  0 < loan -> 0 < rateAPR -> (0 < termYears)%Z -> (0 < years)%Z ->
  let f := summarizeFinancials
             (Schedule.rows (amortizationSchedule loan rateAPR termYears))
             years in
  Financials.principalPaid f + Financials.balance f = loan
  /\ 0 <= Financials.balance f
  /\ ((termYears <= years)%Z ->
      Financials.principalPaid f = loan /\ Financials.balance f = 0).
Proof.
  intros Hl Hr Ht Hy f. subst f. unfold amortizationSchedule.
  cbn [Schedule.rows].
  pose proof (monthlyRate_pos rateAPR Hr) as Hr'.
  set (r := monthlyRate rateAPR) in *.
  set (n := (termYears * 12)%Z).
  destruct (summarize_loop (monthlyPayment loan r n) r (Z.to_nat n) loan years
              ltac:(lia)) as (HP & _ & HB).
  rewrite HP, HB.
  set (k := Z.to_nat (Z.min (Z.of_nat (Z.to_nat n)) (years * 12))).
  assert (Hk : 0 <= runningBalance (monthlyPayment loan r n) r k loan)
    by (apply runningBalance_nonneg;
        [now apply Qclt_le_weak | assumption | lia | lia]).
  rewrite max_0_of_nonneg by exact Hk.
  split; [ring | split; [exact Hk |]].
  intros Hge.
  replace k with (Z.to_nat n) by lia.
  rewrite runningBalance_final by (auto; lia).
  split; [ring | reflexivity].
Qed.

End ScheduleMore.

Section SummaryOfSchedule.
Import RealROI Aux NumFacts AmortizationFacts ScheduleMore.

Variables (loan rateAPR : Qc) (termYears years : Z).

(** X1.  Whatever the loan and the rate, for a term of at least one
    year, what [summarizeFinancials] reports as paid, principal and
    interest together, is the monthly payment times the number of
    months of the window, [min(12 * termYears, 12 * years)]. *)
Theorem summary_total_paid :
  (0 < termYears)%Z -> (0 <= years)%Z ->
  let s := amortizationSchedule loan rateAPR termYears in
  let f := summarizeFinancials (Schedule.rows s) years in
  Financials.principalPaid f + Financials.interestPaid f
  = Num.ofZ (Z.min (termYears * 12) (years * 12)) * Schedule.paymentMonthly s.
Proof.
  intros Ht Hy s f. subst f s. unfold amortizationSchedule.
  cbn [Schedule.rows Schedule.paymentMonthly].
  set (m := monthlyPayment _ _ _). set (r := monthlyRate _).
  destruct (Z.eq_dec (Z.min (termYears * 12) (years * 12)) 0) as [E0|Hne].
  - rewrite E0. unfold summarizeFinancials. rewrite scheduleLoop_length.
    replace (Z.min (Z.of_nat (Z.to_nat (termYears * 12))) (years * 12))
      with 0%Z by lia.
    cbn [Z.eqb Financials.principalPaid Financials.interestPaid].
    apply Qc_is_canon. reflexivity.
  - destruct (summarize_loop m r (Z.to_nat (termYears * 12)) loan years ltac:(lia))
      as (_ & H & _).
    rewrite H. do 2 f_equal. lia.
Qed.

(** X2.  For a positive loan, rate and term and a horizon of at least
    one year, the principal paid and the balance reported by
    [summarizeFinancials] add up to the loan. *)
Theorem summary_conserves_loan :
  0 < loan -> 0 < rateAPR -> (0 < termYears)%Z -> (0 < years)%Z ->
  let s := amortizationSchedule loan rateAPR termYears in
  let f := summarizeFinancials (Schedule.rows s) years in
  Financials.principalPaid f + Financials.balance f = loan
  /\ 0 <= Financials.balance f.
Proof.
  intros Hl Hr Ht Hy s f.
  destruct (schedule_summary loan rateAPR termYears years Hl Hr Ht Hy)
    as (H1 & H2 & _).
  split; assumption.
Qed.

(** X3.  Once the horizon reaches the term, the whole loan is reported
    as principal paid and the balance is 0. *)
Theorem summary_after_term :
  0 < loan -> 0 < rateAPR -> (0 < termYears)%Z -> (termYears <= years)%Z ->
  let s := amortizationSchedule loan rateAPR termYears in
  let f := summarizeFinancials (Schedule.rows s) years in
  Financials.principalPaid f = loan /\ Financials.balance f = 0.
Proof.
  intros Hl Hr Ht Hy s f.
  destruct (schedule_summary loan rateAPR termYears years Hl Hr Ht ltac:(lia))
    as (_ & _ & H).
  exact (H Hy).
Qed.

(** X4.  A negative horizon reports nothing paid and a balance of 0,
    whatever the rows: not the first row's balance, which is what the
    horizon 0 reports. *)
Theorem summary_negative_horizon (rows : list Row.t) :
  (years < 0)%Z ->
  summarizeFinancials rows years = Financials.mk 0 0 0.
Proof.
  intros Hy. unfold summarizeFinancials.
  destruct (Z.min (Z.of_nat (length rows)) (years * 12) =? 0)%Z eqn:E;
    [apply Z.eqb_eq in E; lia|].
  replace (Z.to_nat (Z.min (Z.of_nat (length rows)) (years * 12))) with O by lia.
  unfold Num.item.
  destruct (Z.min (Z.of_nat (length rows)) (years * 12) - 1 <? 0)%Z eqn:E';
    [| apply Z.ltb_ge in E'; lia].
  reflexivity.
Qed.

End SummaryOfSchedule.


Module RowFacts.
Import RealROI Aux NumFacts AmortizationFacts ScheduleMore.

Lemma payment_exceeds_interest loan r n :
  0 < loan -> 0 < r -> (0 < n)%Z -> loan * r < monthlyPayment loan r n.
Proof.
  intros Hl Hr Hn.
  destruct (paymentDenominator_bounds r n Hr Hn) as [Hd0 Hd1].
  unfold monthlyPayment. set (dn := paymentDenominator r n) in *. clearbody dn.
  assert (E : loan * r = (loan * r / dn) * dn).
  { field. intros ->. revert Hd0. qc2q. lra. }
  assert (Hy : 0 < loan * r / dn).
  { unfold Qcdiv. qc2q.
    apply Qmult_lt_0_compat; [nra | apply Qinv_lt_0_compat; lra]. }
  set (y := loan * r / dn) in *. clearbody y. rewrite E at 1.
  revert Hy Hd0 Hd1. clear. intros. qc2q. nra.
Qed.

Lemma loop_rows_split m r count i bal :
  0 < r -> bal * r < m ->
  (forall j, (j < count)%nat -> 0 <= runningBalance m r j bal) ->
  Forall (fun row =>
            Row.payment row = m
            /\ Row.interest row + Row.principal row = Row.payment row
            /\ 0 <= Row.interest row
            /\ 0 < Row.principal row)
         (scheduleLoop m r count i bal).
Proof.
  intros Hr. revert i bal; induction count as [|k IH]; intros i bal Hb Hpos.
  - constructor.
  - cbn [scheduleLoop]. constructor.
    + cbn [Row.payment Row.interest Row.principal].
      pose proof (Hpos O ltac:(lia)) as H0. cbn [runningBalance] in H0.
      repeat split.
      * ring.
      * revert Hr H0. qc2q. intros. nra.
      * revert Hb. qc2q. lra.
    + apply IH.
      * revert Hr Hb. qc2q. intros. nra.
      * intros j Hj. apply (Hpos (S j)). lia.
Qed.

Lemma loop_months m r count i bal :
  map Row.month (scheduleLoop m r count i bal)
  = map (fun j => (i + Z.of_nat j)%Z) (seq 0 count).
Proof.
  revert i bal; induction count as [|k IH]; intros i bal; [reflexivity|].
  cbn [scheduleLoop map Row.month seq]. f_equal; [f_equal; lia|].
  rewrite IH, <- seq_shift, map_map. apply map_ext. intros j. lia.
Qed.

(** The principal portion of a row is [1 + r] times that of the row
    before it. *)
Lemma loop_principal_step m r count i bal j a b :
  nth_error (scheduleLoop m r count i bal) j = Some a ->
  nth_error (scheduleLoop m r count i bal) (S j) = Some b ->
  Row.principal b = Row.principal a * (1 + r).
Proof.
  revert count i bal; induction j as [|j IH]; intros count i bal Ha Hb.
  - destruct count as [|[|count]]; try discriminate.
    cbn in Ha, Hb. injection Ha as <-. injection Hb as <-.
    cbn [Row.principal]. ring.
  - destruct count as [|count]; [discriminate|].
    cbn [scheduleLoop nth_error] in Ha, Hb. eapply IH; eassumption.
Qed.

End RowFacts.

Section RowProperties.
Import RealROI Aux NumFacts AmortizationFacts ScheduleMore RowFacts.

Variables (loan rateAPR : Qc) (termYears : Z).

(** X5.  For a positive loan, rate and term every row of the schedule
    carries the monthly payment, splits it into an interest portion
    that is not negative and a principal portion that is positive, and
    the rows are numbered 1, 2, ..., 12 * termYears. *)
Theorem schedule_rows_split_the_payment :
  0 < loan -> 0 < rateAPR -> (0 < termYears)%Z ->
  let s := amortizationSchedule loan rateAPR termYears in
  Forall (fun row =>
            Row.payment row = Schedule.paymentMonthly s
            /\ Row.interest row + Row.principal row = Row.payment row
            /\ 0 <= Row.interest row
            /\ 0 < Row.principal row)
         (Schedule.rows s)
  /\ map Row.month (Schedule.rows s)
     = map Z.of_nat (seq 1 (Z.to_nat (termYears * 12))).
Proof.
  intros Hl Hr Ht s. subst s. unfold amortizationSchedule.
  cbn [Schedule.rows Schedule.paymentMonthly].
  pose proof (monthlyRate_pos rateAPR Hr) as Hr'.
  set (r := monthlyRate rateAPR) in *.
  split.
  - apply loop_rows_split; [exact Hr' | apply payment_exceeds_interest; auto; lia |].
    intros j Hj. apply runningBalance_nonneg;
      [now apply Qclt_le_weak | exact Hr' | lia | lia].
  - rewrite loop_months, <- seq_shift, map_map. apply map_ext. intros j. lia.
Qed.

(** X6.  Whatever the inputs, the principal portion of a row of the
    schedule is [1 + r] times the principal portion of the row before
    it, [r] being the monthly rate in use. *)
Theorem principal_portion_compounds (j : nat) (a b : Row.t) :
  let rs := Schedule.rows (amortizationSchedule loan rateAPR termYears) in
  nth_error rs j = Some a -> nth_error rs (S j) = Some b ->
  Row.principal b = Row.principal a * (1 + monthlyRate rateAPR).
Proof.
  intros rs. subst rs. unfold amortizationSchedule. cbn [Schedule.rows].
  apply loop_principal_step.
Qed.

(** X7.  [appreciationGain] is zero over zero years and at a zero
    rate, and positive for a positive price, rate and number of
    years. *)
Theorem appreciationGain_sign (price rate : Qc) (years : Z) :
  appreciationGain price rate 0 = 0
  /\ appreciationGain price 0 years = 0
  /\ (0 < price -> 0 < rate -> (0 < years)%Z ->
      0 < appreciationGain price rate years).
Proof.
  unfold appreciationGain. repeat split.
  - rewrite pow_0. ring.
  - replace (Num.pow (1 + 0) years) with 1; [ring|].
    symmetry. qc2q. apply Qpower_1.
  - intros Hp Hr Hy.
    assert (Hx : 1 < Num.pow (1 + rate) years)
      by (apply pow_gt_1; [revert Hr; qc2q; lra | exact Hy]).
    set (x := Num.pow (1 + rate) years) in *. clearbody x.
    revert Hp Hx. qc2q. intros. nra.
Qed.

End RowProperties.

(** ** The ledger of [App.jsx] *)

Module LedgerFacts.
Import NumFacts PipelineFacts Notions.

Lemma orElse_zero (x : option Qc) :
  Num.orElse x 0 = match x with Some v => v | None => 0 end.
Proof.
  destruct x as [v|]; [| reflexivity]. unfold Num.orElse.
  destruct (Qc_eq_bool v 0) eqn:E; [| reflexivity].
  symmetry. now apply Qc_eq_bool_correct.
Qed.

Lemma ofZ_succ (z : Z) : Num.ofZ (z + 1) = Num.ofZ z + 1.
Proof. qc2q. rewrite inject_Z_plus. reflexivity. Qed.

Lemma item_prefix {A : Type} (l : list A) (x : A) (i : Z) :
  (i < Z.of_nat (length l))%Z -> Num.item (l ++ [x]) i = Num.item l i.
Proof.
  intros Hi. unfold Num.item. destruct (i <? 0)%Z eqn:E; [reflexivity|].
  apply Z.ltb_ge in E. apply nth_error_app1. lia.
Qed.

(** The loop keeps the entries it was given and appends, for each of
    its turns, the entry of that year. *)
Lemma ledgerLoop_entries d count :
  forall y cum ledger,
    let result := AppJsx.ledgerLoop d count y cum ledger in
    (forall i, (i < length ledger)%nat ->
               nth_error result i = nth_error ledger i)
    /\ (forall j, (j < count)%nat ->
          exists cum' ledger',
            nth_error result (length ledger + j)
            = Some (AppJsx.ledgerEntry d (y + Z.of_nat j) cum' ledger')).
Proof.
  induction count as [|k IH]; intros y cum ledger result; subst result.
  - cbn [AppJsx.ledgerLoop]. split; [reflexivity | intros j Hj; lia].
  - cbn [AppJsx.ledgerLoop].
    set (e := AppJsx.ledgerEntry d y cum ledger).
    destruct (IH (y + 1)%Z (LedgerEntry.cumulativeNominalCashFlow e) (ledger ++ [e]))
      as [Hpre Hnew].
    rewrite length_app in Hpre, Hnew. cbn [length] in Hpre, Hnew.
    split.
    + intros i Hi. rewrite Hpre by lia. apply nth_error_app1. exact Hi.
    + intros [|j] Hj.
      * exists cum, ledger. rewrite Nat.add_0_r, Z.add_0_r.
        rewrite Hpre by lia. rewrite nth_error_app2, Nat.sub_diag by lia.
        reflexivity.
      * destruct (Hnew j ltac:(lia)) as (cum' & ledger' & H).
        exists cum', ledger'.
        replace (length ledger + S j)%nat with (length ledger + 1 + j)%nat by lia.
        rewrite H. do 2 f_equal. lia.
Qed.

Lemma ledger_length d :
  length (AppJsx.ledger d) = Z.to_nat (AppJsx.timelineYears d).
Proof. unfold AppJsx.ledger. now rewrite ledgerLoop_length. Qed.

Lemma ledger_entry d j :
  (j < Z.to_nat (AppJsx.timelineYears d))%nat ->
  exists cum ledger,
    nth_error (AppJsx.ledger d) j
    = Some (AppJsx.ledgerEntry d (Z.of_nat j + 1) cum ledger).
Proof.
  intros Hj. unfold AppJsx.ledger.
  destruct (ledgerLoop_entries d (Z.to_nat (AppJsx.timelineYears d)) 1 0 [])
    as [_ H].
  destruct (H j Hj) as (cum & ledger & E). exists cum, ledger.
  cbn [length Nat.add] in E. rewrite E. do 2 f_equal. lia.
Qed.

Lemma finalLedgerEntry_is d :
  (0 < AppJsx.timelineYears d)%Z ->
  exists cum ledger,
    AppJsx.finalLedgerEntry d
    = AppJsx.ledgerEntry d (AppJsx.timelineYears d) cum ledger.
Proof.
  intros HT. unfold AppJsx.finalLedgerEntry, Num.item.
  destruct (AppJsx.timelineYears d - 1 <? 0)%Z eqn:E;
    [apply Z.ltb_lt in E; lia|].
  destruct (ledger_entry d (Z.to_nat (AppJsx.timelineYears d - 1)) ltac:(lia))
    as (cum & ledger & H).
  exists cum, ledger. rewrite H. f_equal. lia.
Qed.

Lemma ledgerLoop_tax d count :
  forall y cum ledger,
    Z.of_nat (length ledger) = (y - 1)%Z ->
    Num.sum (map LedgerEntry.taxSavings ledger)
    = (interestBefore ledger y
       + Num.ofZ (y - 1) * (AppJsx.price d * AppJsx.taxesPct d))
      * AppJsx.defaultMarginalRate ->
    let result := AppJsx.ledgerLoop d count y cum ledger in
    Num.sum (map LedgerEntry.taxSavings result)
    = (interestBefore result (y + Z.of_nat count)
       + Num.ofZ (y - 1 + Z.of_nat count)
         * (AppJsx.price d * AppJsx.taxesPct d))
      * AppJsx.defaultMarginalRate.
Proof.
  induction count as [|k IH]; intros y cum ledger Hlen Hsum result; subst result.
  - cbn [AppJsx.ledgerLoop Z.of_nat]. rewrite !Z.add_0_r. exact Hsum.
  - cbn [AppJsx.ledgerLoop].
    set (e := AppJsx.ledgerEntry d y cum ledger).
    replace (y + Z.of_nat (S k))%Z with (y + 1 + Z.of_nat k)%Z by lia.
    replace (y - 1 + Z.of_nat (S k))%Z with (y + 1 - 1 + Z.of_nat k)%Z by lia.
    apply IH.
    + rewrite length_app. cbn [length]. lia.
    + rewrite map_app, sum_app. cbn [map]. rewrite sum_cons, sum_nil, Hsum.
      unfold interestBefore at 2.
      replace (y + 1 - 2)%Z with (Z.of_nat (length ledger)) by lia.
      rewrite item_last. cbn [option_map]. rewrite orElse_zero.
      replace (y + 1 - 1)%Z with (y - 1 + 1)%Z by lia. rewrite ofZ_succ.
      subst e. unfold AppJsx.ledgerEntry at 1. cbn [LedgerEntry.taxSavings].
      fold (interestBefore ledger y).
      unfold AppJsx.ledgerEntry. cbn [LedgerEntry.interestPaid]. ring.
Qed.

End LedgerFacts.

Section LedgerProperties.
Import RealROI NumFacts PipelineFacts LedgerFacts Notions.

Variable d : AppJsx.Deal.

(** X8.  The ledger of [App.jsx] has one entry per year of the
    timeline, numbered 1, 2, ..., [timelineYears] (none for a timeline
    that is not positive). *)
Theorem ledger_years :
  map LedgerEntry.year (AppJsx.ledger d)
  = map Z.of_nat (seq 1 (Z.to_nat (AppJsx.timelineYears d))).
Proof.
  apply nth_error_ext. intros j.
  rewrite !nth_error_map.
  destruct (Nat.lt_ge_cases j (Z.to_nat (AppJsx.timelineYears d))) as [Hj|Hj].
  - destruct (ledger_entry d j Hj) as (cum & ledger & E). rewrite E.
    rewrite nth_error_seq.
    replace (j <? Z.to_nat (AppJsx.timelineYears d))%nat with true
      by (symmetry; apply Nat.ltb_lt; exact Hj).
    cbn [option_map AppJsx.ledgerEntry LedgerEntry.year]. f_equal. lia.
  - replace (nth_error (AppJsx.ledger d) j) with (@None LedgerEntry.t)
      by (symmetry; apply nth_error_None; rewrite ledger_length; exact Hj).
    replace (nth_error (seq 1 (Z.to_nat (AppJsx.timelineYears d))) j)
      with (@None nat)
      by (symmetry; apply nth_error_None; rewrite length_seq; exact Hj).
    reflexivity.
Qed.

(** X9.  The tax savings of the ledger telescope: their total is the
    marginal rate times the interest paid over the whole timeline plus
    [timelineYears] times the yearly property tax. *)
Theorem total_tax_savings_telescopes :
  (0 < AppJsx.timelineYears d)%Z ->
  AppJsx.totalTaxSavings d
  = (Financials.interestPaid
       (summarizeFinancials (Schedule.rows (AppJsx.schedule d))
          (AppJsx.timelineYears d))
     + Num.ofZ (AppJsx.timelineYears d)
       * (AppJsx.price d * AppJsx.taxesPct d))
    * AppJsx.defaultMarginalRate.
Proof.
  intros HT. unfold AppJsx.totalTaxSavings, AppJsx.ledger.
  rewrite (ledgerLoop_tax d (Z.to_nat (AppJsx.timelineYears d)) 1 0 []);
    [| reflexivity | cbn; apply Qc_is_canon; reflexivity].
  fold (AppJsx.ledger d).
  replace (1 - 1 + Z.of_nat (Z.to_nat (AppJsx.timelineYears d)))%Z
    with (AppJsx.timelineYears d) by lia.
  f_equal. f_equal.
  unfold interestBefore. rewrite orElse_zero.
  replace (1 + Z.of_nat (Z.to_nat (AppJsx.timelineYears d)) - 2)%Z
    with (AppJsx.timelineYears d - 1)%Z by lia.
  destruct (finalLedgerEntry_is d HT) as (cum & ledger & E).
  unfold AppJsx.finalLedgerEntry in E.
  destruct (Num.item (AppJsx.ledger d) (AppJsx.timelineYears d - 1)) as [e|] eqn:Ei.
  - cbn [option_map]. rewrite E. reflexivity.
  - exfalso. unfold Num.item in Ei.
    destruct (AppJsx.timelineYears d - 1 <? 0)%Z eqn:E0;
      [apply Z.ltb_lt in E0; lia|].
    apply nth_error_None in Ei. rewrite ledger_length in Ei. lia.
Qed.

(** X10.  With a down payment of 20% or more there is no mortgage
    insurance: every year of the ledger has the same nominal cash
    flow, and the cumulative cash flow of the final entry is
    [timelineYears] times it. *)
Theorem cash_flow_is_flat_without_pmi :
  Num.dec 20 100 <= AppJsx.downPct d ->
  let flat :=
    annualCashFlow
      (AppJsx.cashFlowConfig d (Schedule.paymentMonthly (AppJsx.schedule d)) 0) in
  Forall (fun e => LedgerEntry.nominalCashFlow e = flat) (AppJsx.ledger d)
  /\ LedgerEntry.cumulativeNominalCashFlow (AppJsx.finalLedgerEntry d)
     = Num.ofZ (Z.of_nat (length (AppJsx.ledger d))) * flat.
Proof.
  intros Hd flat.
  assert (Hpmi : AppJsx.hasPMI d = false) by (apply ltb_ge; exact Hd).
  assert (Hall : Forall (fun e => LedgerEntry.nominalCashFlow e = flat)
                        (AppJsx.ledger d)).
  { apply Forall_forall. intros e Hin.
    apply In_nth_error in Hin. destruct Hin as [j Hj].
    assert (Hlt : (j < Z.to_nat (AppJsx.timelineYears d))%nat).
    { rewrite <- ledger_length. apply nth_error_Some. congruence. }
    destruct (ledger_entry d j Hlt) as (cum & ledger & E).
    rewrite E in Hj. injection Hj as <-.
    unfold AppJsx.ledgerEntry. cbn [LedgerEntry.nominalCashFlow].
    rewrite Hpmi. reflexivity. }
  split; [exact Hall|].
  rewrite final_cumulative.
  induction Hall as [|e l He _ IH]; cbn [map length].
  - rewrite sum_nil. apply Qc_is_canon. reflexivity.
  - rewrite sum_cons, IH, He, Nat2Z.inj_succ. unfold Z.succ.
    rewrite ofZ_succ. ring.
Qed.

(** X11.  For a positive loan (a down payment below a positive price),
    a positive rate and term and a timeline of at least one year, the
    principal paid and the loan balance of the final ledger entry add
    up to the loan; once the timeline reaches the term the balance is
    0 and the sale pays nothing off. *)
Theorem final_entry_conserves_loan :
  0 < AppJsx.loan d -> 0 < AppJsx.rate d ->
  (0 < AppJsx.termYears d)%Z -> (0 < AppJsx.timelineYears d)%Z ->
  AppJsx.principalPaid d + LedgerEntry.loanBalance (AppJsx.finalLedgerEntry d)
  = AppJsx.loan d
  /\ ((AppJsx.termYears d <= AppJsx.timelineYears d)%Z ->
      LedgerEntry.loanBalance (AppJsx.finalLedgerEntry d) = 0).
Proof.
  intros Hl Hr Ht HT.
  assert (Hr' : 0 < AppJsx.rate d / Num.ofZ 100).
  { unfold Qcdiv. revert Hr. qc2q. intros Hr.
    apply Qmult_lt_0_compat; [exact Hr | reflexivity]. }
  destruct (finalLedgerEntry_is d HT) as (cum & ledger & E).
  unfold AppJsx.principalPaid. rewrite E.
  unfold AppJsx.ledgerEntry.
  cbn [LedgerEntry.principalPaid LedgerEntry.loanBalance].
  unfold AppJsx.schedule.
  destruct (ScheduleMore.schedule_summary _ _ _ _ Hl Hr' Ht HT)
    as (H1 & _ & H3).
  split; [exact H1 | intros Hge; exact (proj2 (H3 Hge))].
Qed.

End LedgerProperties.

(** ** The monthly series of [App.jsx] *)

Module FlowFacts.
Import NumFacts PipelineFacts LedgerFacts.

Lemma sum_repeat (v : Qc) (k : nat) :
  Num.sum (repeat v k) = Num.ofZ (Z.of_nat k) * v.
Proof.
  induction k as [|k IH]; cbn [repeat].
  - rewrite sum_nil. apply Qc_is_canon. reflexivity.
  - rewrite sum_cons, IH, Nat2Z.inj_succ. unfold Z.succ. rewrite ofZ_succ. ring.
Qed.

Lemma monthlyLoop_length d count y flows :
  length (AppJsxFlows.monthlyLoop d count y flows)
  = (length flows + 12 * count)%nat.
Proof.
  revert y flows; induction count as [|k IH]; intros y flows;
    cbn [AppJsxFlows.monthlyLoop].
  - lia.
  - rewrite IH, length_app, repeat_length. lia.
Qed.

Lemma monthlyLoop_head d count y x flows :
  nth_error (AppJsxFlows.monthlyLoop d count y (x :: flows)) 0 = Some x.
Proof.
  revert y flows; induction count as [|k IH]; intros y flows;
    cbn [AppJsxFlows.monthlyLoop]; [reflexivity|].
  cbn [app]. apply IH.
Qed.

(** Twelve monthly shares make the year's cash flow again. *)
Lemma monthlyShare_year d y :
  Num.ofZ 12 * AppJsxFlows.monthlyShare d y
  = match Num.item (AppJsx.ledger d) y with
    | Some e => LedgerEntry.nominalCashFlow e
    | None => 0
    end.
Proof.
  unfold AppJsxFlows.monthlyShare. rewrite orElse_zero.
  destruct (Num.item (AppJsx.ledger d) y); cbn [option_map]; field; discriminate.
Qed.

Lemma monthlyLoop_sum d count :
  forall y flows,
    Num.sum (AppJsxFlows.monthlyLoop d count y flows)
    = Num.sum flows
      + Num.sum (map (fun y => match Num.item (AppJsx.ledger d) y with
                               | Some e => LedgerEntry.nominalCashFlow e
                               | None => 0
                               end)
                     (AppTsx.yearsFrom y count)).
Proof.
  induction count as [|k IH]; intros y flows;
    cbn [AppJsxFlows.monthlyLoop AppTsx.yearsFrom map].
  - rewrite sum_nil. ring.
  - rewrite IH, sum_app, sum_repeat, sum_cons.
    change (Z.of_nat 12) with 12%Z. rewrite monthlyShare_year. ring.
Qed.

(** Reading a list by the indices [y, y + 1, ...] from its [y]-th
    element on gives that part of the list. *)
Lemma years_read_list {A : Type} (f : A -> Qc) (l : list A) :
  forall (pre : list A),
    map (fun y => match Num.item (pre ++ l) y with
                  | Some e => f e
                  | None => 0
                  end)
        (AppTsx.yearsFrom (Z.of_nat (length pre)) (length l))
    = map f l.
Proof.
  induction l as [|x l IH]; intros pre; [reflexivity|].
  cbn [length AppTsx.yearsFrom map]. f_equal.
  - unfold Num.item.
    replace (Z.of_nat (length pre) <? 0)%Z with false
      by (symmetry; apply Z.ltb_ge; lia).
    rewrite Nat2Z.id, nth_error_app2, Nat.sub_diag by lia. reflexivity.
  - specialize (IH (pre ++ [x])).
    rewrite <- app_assoc, length_app in IH. cbn [app length] in IH.
    rewrite <- IH. f_equal. f_equal. lia.
Qed.

Lemma sum_bump_last (l : list Qc) (x : Qc) :
  l <> [] -> Num.sum (removelast l ++ [last l 0 + x]) = Num.sum l + x.
Proof.
  intros Hl. rewrite (app_removelast_last 0 Hl) at 3.
  rewrite !sum_app, !sum_cons, sum_nil. ring.
Qed.

Lemma cpiSeries_positive : Forall (fun v => 0 < v) AppJsx.cpiSeries.
Proof.
  unfold AppJsx.cpiSeries. apply Forall_map, Forall_forall. intros i _.
  qc2q.
  assert (H : (0 <= inject_Z (Z.of_nat i))%Q).
  { unfold Qle. cbn [Qnum Qden inject_Z]. lia. }
  set (x := inject_Z (Z.of_nat i)) in *. clearbody x.
  lra.
Qed.

Lemma cpiSeries_length : length AppJsx.cpiSeries = 180%nat.
Proof. unfold AppJsx.cpiSeries. now rewrite length_map, length_seq. Qed.

(** [cpiSeries[i] || cpiSeries.slice(-1)[0]] is the value of index
    [min(i, 179)]. *)
Lemma cpiAt_clamps i :
  AppJsxFlows.cpiAt i = nth (Nat.min i 179) AppJsx.cpiSeries 0.
Proof.
  unfold AppJsxFlows.cpiAt.
  pose proof cpiSeries_positive as Hpos. rewrite Forall_forall in Hpos.
  pose proof cpiSeries_length as Hlen.
  assert (Hnz : forall v, In v AppJsx.cpiSeries ->
                          Num.orElse (Some v) (last AppJsx.cpiSeries 0) = v).
  { intros v Hv. unfold Num.orElse.
    destruct (Qc_eq_bool v 0) eqn:E; [| reflexivity].
    apply Qc_eq_bool_correct in E. specialize (Hpos v Hv). rewrite E in Hpos.
    discriminate Hpos. }
  destruct (Nat.lt_ge_cases i 180) as [Hi|Hi].
  - rewrite Nat.min_l by lia.
    destruct (nth_error AppJsx.cpiSeries i) as [v|] eqn:E;
      [| apply nth_error_None in E; lia].
    rewrite (nth_error_nth _ _ 0 E). apply Hnz. eapply nth_error_In; eassumption.
  - rewrite Nat.min_r by lia.
    replace (nth_error AppJsx.cpiSeries i) with (@None Qc)
      by (symmetry; apply nth_error_None; lia).
    cbn [Num.orElse]. reflexivity.
Qed.

Lemma monthlyCashFlows_head d :
  nth_error (AppJsxFlows.monthlyCashFlows d) 0
  = Some (- AppJsx.totalInvestment d).
Proof.
  unfold AppJsxFlows.monthlyCashFlows.
  set (flows := AppJsxFlows.monthlyLoop d _ 0 _).
  assert (Hh : nth_error flows 0 = Some (- AppJsx.totalInvestment d))
    by apply monthlyLoop_head.
  destruct (1 <? length flows)%nat eqn:E; [| exact Hh].
  apply Nat.ltb_lt in E.
  destruct flows as [|a [|b rest]]; cbn [length] in E; try lia.
  cbn in Hh. injection Hh as ->. reflexivity.
Qed.

End FlowFacts.

Section FlowProperties.
Import RealROI NumFacts PipelineFacts LedgerFacts FlowFacts.

Variable d : AppJsx.Deal.

(** X12.  The monthly series [App.jsx] hands to its solver has
    [1 + 12 * timelineYears] entries.  For a loan term and a timeline
    of at least one year it adds up to the ledger's cumulative nominal
    cash flow plus the net sale proceeds minus the total investment;
    for a timeline of 0 years it is the outlay alone, and the sale
    proceeds are not added. *)
Theorem monthly_series_redistributes_the_ledger :
  length (AppJsxFlows.monthlyCashFlows d)
  = S (12 * Z.to_nat (AppJsx.timelineYears d))
  /\ ((0 < AppJsx.termYears d)%Z -> (0 < AppJsx.timelineYears d)%Z ->
      Num.sum (AppJsxFlows.monthlyCashFlows d)
      = - AppJsx.totalInvestment d
        + LedgerEntry.cumulativeNominalCashFlow (AppJsx.finalLedgerEntry d)
        + AppJsx.netProceeds d)
  /\ ((AppJsx.timelineYears d <= 0)%Z ->
      AppJsxFlows.monthlyCashFlows d = (- AppJsx.totalInvestment d) :: []).
Proof.
  unfold AppJsxFlows.monthlyCashFlows.
  set (flows := AppJsxFlows.monthlyLoop d _ 0 _).
  assert (Hlen : length flows = S (12 * Z.to_nat (AppJsx.timelineYears d)))
    by (subst flows; rewrite monthlyLoop_length; cbn [length]; lia).
  split; [| split].
  - destruct (1 <? length flows)%nat; [| exact Hlen].
    rewrite length_app, removelast_firstn_len, length_firstn. cbn [length]. lia.
  - intros _ HT.
    replace (1 <? length flows)%nat with true
      by (symmetry; apply Nat.ltb_lt; lia).
    rewrite sum_bump_last by (intros E; rewrite E in Hlen; discriminate Hlen).
    f_equal. subst flows. rewrite monthlyLoop_sum, sum_cons, sum_nil.
    rewrite final_cumulative.
    rewrite <- (ledger_length d).
    pose proof (years_read_list LedgerEntry.nominalCashFlow (AppJsx.ledger d) [])
      as Hy.
    cbn [app length Z.of_nat] in Hy. rewrite Hy. ring.
  - intros HT. subst flows.
    replace (Z.to_nat (AppJsx.timelineYears d)) with O in * by lia.
    reflexivity.
Qed.

(** X13.  Every entry of that series is deflated on its own: entry [i]
    of [monthlyRealCashFlows] is entry [i] of [monthlyCashFlows] times
    [cpiBase / cpiSeries[min(i, 179)]], the last index of the CPI data
    serving for the entries past it.  The outlay, entry 0, is
    unchanged. *)
Theorem monthly_series_is_deflated_per_month :
  (forall i cf,
     nth_error (AppJsxFlows.monthlyCashFlows d) i = Some cf ->
     nth_error (AppJsxFlows.monthlyRealCashFlows d) i
     = Some (cf * (AppJsx.cpiBase / nth (Nat.min i 179) AppJsx.cpiSeries 0)))
  /\ nth_error (AppJsxFlows.monthlyRealCashFlows d) 0
     = Some (- AppJsx.totalInvestment d).
Proof.
  assert (H : forall i cf,
     nth_error (AppJsxFlows.monthlyCashFlows d) i = Some cf ->
     nth_error (AppJsxFlows.monthlyRealCashFlows d) i
     = Some (cf * (AppJsx.cpiBase / nth (Nat.min i 179) AppJsx.cpiSeries 0))).
  { intros i cf Hi. unfold AppJsxFlows.monthlyRealCashFlows.
    rewrite nth_error_map.
    assert (Hlt : (i < length (AppJsxFlows.monthlyCashFlows d))%nat)
      by (apply nth_error_Some; congruence).
    assert (E : nth_error (Aux.indexedFrom 0 (AppJsxFlows.monthlyCashFlows d)) i
                = Some (i, cf)).
    { rewrite (nth_error_nth' _ (O, 0))
        by (rewrite BenchmarkFacts.indexedFrom_length; exact Hlt).
      rewrite BenchmarkFacts.indexedFrom_nth by exact Hlt.
      now rewrite (nth_error_nth _ _ 0 Hi). }
    rewrite E. cbn [option_map fst snd].
    unfold toReal. now rewrite cpiAt_clamps. }
  split; [exact H|].
  pose proof (monthlyCashFlows_head d) as H0.
  rewrite (H _ _ H0). f_equal.
  change (nth (Nat.min 0 179) AppJsx.cpiSeries 0) with AppJsx.cpiBase.
  field. discriminate.
Qed.

End FlowProperties.

(** ** The equity curve *)

Module CurveFacts.
Import RealROI NumFacts BenchmarkFacts.

(** The loop of [realEquityCurve] yields a curve of numbers only if
    the two series it reads by index reach as far as the returns. *)
Lemma curveLoop_some_lengths feeMo dividends cpiGrowth rest :
  forall t curve out,
    (t <= length dividends)%nat -> (t <= length cpiGrowth)%nat ->
    curveLoop feeMo dividends cpiGrowth rest t curve = Some out ->
    (t + length rest <= length dividends)%nat
    /\ (t + length rest <= length cpiGrowth)%nat.
Proof.
  induction rest as [|ret rest IH]; intros t curve out Hd Hc H.
  - cbn [length]. lia.
  - cbn [curveLoop length] in *.
    destruct (nth_error dividends t) as [div|] eqn:Ed; [| discriminate H].
    destruct (nth_error cpiGrowth t) as [cpi|] eqn:Ec; [| discriminate H].
    assert (t < length dividends)%nat by (apply nth_error_Some; congruence).
    assert (t < length cpiGrowth)%nat by (apply nth_error_Some; congruence).
    destruct (IH (S t) _ _ ltac:(lia) ltac:(lia) H). lia.
Qed.

Lemma realEquityCurve_defined returns dividends cpiGrowth fee :
  (exists curve, realEquityCurve returns dividends cpiGrowth fee = Some curve)
  <-> (length returns <= length dividends)%nat
      /\ (length returns <= length cpiGrowth)%nat.
Proof.
  unfold realEquityCurve. split.
  - intros [curve H].
    apply curveLoop_some_lengths in H; cbn [Nat.add] in *; lia.
  - intros [Hd Hc]. rewrite curveLoop_compound by (cbn [Nat.add]; lia).
    eexists. reflexivity.
Qed.

Lemma cpiGrowth_length : length AppJsxFlows.cpiGrowth = 179%nat.
Proof.
  unfold AppJsxFlows.cpiGrowth.
  rewrite length_map, indexedFrom_length, length_skipn.
  now rewrite FlowFacts.cpiSeries_length.
Qed.

(** Cash flows of zero leave the wealth as it is. *)
Lemma wealthLoop_zeros curve T k t wealth :
  wealthLoop curve T (repeat 0 k) t wealth = wealth.
Proof.
  revert t wealth; induction k as [|k IH]; intros t wealth;
    cbn [repeat wealthLoop]; [reflexivity|].
  destruct (length curve <=? t)%nat; rewrite IH; [reflexivity | ring].
Qed.

End CurveFacts.

Section CurveProperties.
Import RealROI NumFacts BenchmarkFacts CurveFacts.

(** X14.  When [dividends] or [cpiGrowth] is shorter than [returns],
    [realEquityCurve] reads an element past its end and the curve holds
    a NaN.  When no [1 + cpiGrowth[t]] is zero, that is the only way:
    a curve that is not a curve of numbers has a series shorter than
    [returns]. *)
Theorem realEquityCurve_needs_long_enough_series
  (returns dividends cpiGrowth : list Qc) (feeBpsPerYear : Qc) :
  ((length dividends < length returns)%nat
   \/ (length cpiGrowth < length returns)%nat ->
   realEquityCurve returns dividends cpiGrowth feeBpsPerYear = None)
  /\ (Forall (fun c => 1 + c <> 0) cpiGrowth ->
      realEquityCurve returns dividends cpiGrowth feeBpsPerYear = None ->
      (length dividends < length returns)%nat
      \/ (length cpiGrowth < length returns)%nat).
Proof.
  pose proof (realEquityCurve_defined returns dividends cpiGrowth feeBpsPerYear)
    as [H1 H2].
  destruct (realEquityCurve returns dividends cpiGrowth feeBpsPerYear) as [curve|].
  - split; [| intros _ E; discriminate E]. intros Hshort.
    destruct (H1 (ex_intro _ curve eq_refl)). lia.
  - split; [reflexivity|]. intros _ _.
    destruct (Nat.lt_ge_cases (length dividends) (length returns)); [now left|].
    destruct (Nat.lt_ge_cases (length cpiGrowth) (length returns)); [now right|].
    destruct H2 as [curve Hc]; [split; assumption | discriminate Hc].
Qed.

(** X15.  In [calculateResults] of [App.jsx] the CPI growth series has
    179 elements, one fewer than the 180 returns of the equity data:
    whatever the returns, the dividends and the fee, the equity curve
    holds a NaN. *)
Theorem equity_curve_of_the_app_is_not_a_number
  (monthlyReturns dividends : list Qc) (totalFeeBps : Qc) :
  length monthlyReturns = 180%nat ->
  length AppJsxFlows.cpiGrowth = 179%nat
  /\ AppJsxFlows.equityCurve monthlyReturns dividends totalFeeBps = None.
Proof.
  intros Hlen. split; [apply cpiGrowth_length|].
  unfold AppJsxFlows.equityCurve.
  destruct (realEquityCurve monthlyReturns dividends AppJsxFlows.cpiGrowth
              totalFeeBps) as [curve|] eqn:E; [| reflexivity].
  exfalso.
  destruct (proj1 (realEquityCurve_defined _ _ _ _) (ex_intro _ curve E))
    as [_ H].
  rewrite cpiGrowth_length, Hlen in H. lia.
Qed.

(** X16.  A single contribution at period 0, followed by zeros, ends
    as the contribution times the growth of the whole curve,
    [curve[last] / curve[0]], on a curve without zero. *)
Theorem single_contribution_grows_with_the_curve
  (curve : list Qc) (c : Qc) (k : nat) :
  curve <> [] -> Forall (fun v => v <> 0) curve ->
  terminalWealthFromCashFlows curve (c :: repeat 0 k)
  = c * (nth (length curve - 1) curve 0 / nth 0 curve 0).
Proof.
  intros Hne _. unfold terminalWealthFromCashFlows.
  destruct curve as [|c0 curve]; [congruence|].
  set (cv := c0 :: curve).
  replace ((Z.of_nat (length cv) - 1 <? 0)%Z) with false
    by (symmetry; apply Z.ltb_ge; subst cv; cbn [length]; lia).
  replace (length cv =? 0)%nat with false by reflexivity.
  cbn [orb wealthLoop].
  replace (length cv <=? 0)%nat with false by reflexivity.
  rewrite wealthLoop_zeros.
  replace (Z.to_nat (Z.of_nat (length cv) - 1)) with (length cv - 1)%nat by lia.
  ring.
Qed.

End CurveProperties.

(** ** The two solvers *)

Module RootFacts.
Import NumFacts.

Lemma npvLoop_zero_rate rest :
  forall t acc, Solver.npvLoop 0 rest t acc = acc + Num.sum rest.
Proof.
  induction rest as [|cf rest IH]; intros t acc; cbn [Solver.npvLoop].
  - rewrite sum_nil. ring.
  - rewrite IH, sum_cons.
    replace (Num.pow (1 + 0) t) with 1 by (symmetry; qc2q; apply Qpower_1).
    field. discriminate.
Qed.

(** The first component of the inner loop of [realroi.irr] is the
    accumulator of [npv]. *)
Lemma sumsLoop_npv r rest :
  forall t npv dnpv,
    fst (Newton.sumsLoop r rest t npv dnpv) = Solver.npvLoop r rest t npv.
Proof.
  induction rest as [|cf rest IH]; intros t npv dnpv;
    cbn [Newton.sumsLoop Solver.npvLoop]; [reflexivity | apply IH].
Qed.

Lemma bisectLoop_in_bracket cashflows tol iters :
  forall low high fLow fHigh rate,
    low <= high ->
    Solver.bisectLoop cashflows tol iters low high fLow fHigh = Some rate ->
    low <= rate /\ rate <= high.
Proof.
  induction iters as [|k IH]; intros low high fLow fHigh rate Hlh H;
    cbn [Solver.bisectLoop] in H; [discriminate|].
  assert (Hmid : low <= (low + high) / Num.ofZ 2
                 /\ (low + high) / Num.ofZ 2 <= high).
  { unfold Qcdiv. revert Hlh. qc2q. intros Hlh.
    change (/ inject_Z 2)%Q with (1 # 2)%Q. split; lra. }
  set (mid := (low + high) / Num.ofZ 2) in *.
  destruct (Num.ltb (Num.abs (Solver.npv mid cashflows)) tol).
  - injection H as <-. exact Hmid.
  - destruct Hmid as [H1 H2].
    destruct (Num.ltb (fLow * Solver.npv mid cashflows) 0).
    + destruct (IH _ _ _ _ _ H1 H) as [Ha Hb]. split; [exact Ha|].
      eapply Qcle_trans; eassumption.
    + destruct (IH _ _ _ _ _ H2 H) as [Ha Hb]. split; [| exact Hb].
      eapply Qcle_trans; eassumption.
Qed.

Lemma abs_zero_below_tol : Num.ltb (Num.abs 0) Newton.tol = true.
Proof. reflexivity. Qed.

End RootFacts.

Section RootProperties.
Import NumFacts RootFacts.

(** X17.  At the rate 0 nothing is discounted: [npv] is the sum of the
    cash flows. *)
Theorem npv_at_zero_rate (cashflows : list Qc) :
  Solver.npv 0 cashflows = Num.sum cashflows.
Proof.
  unfold Solver.npv. rewrite npvLoop_zero_rate. ring.
Qed.

(** X18.  A rate returned by [irrBisection] lies in the bracket it was
    given. *)
Theorem irrBisection_stays_in_bracket (cashflows : list Qc)
  (low high tol rate : Qc) (maxIter : nat) :
  low <= high ->
  Solver.irrBisection cashflows low high tol maxIter = Some rate ->
  low <= rate /\ rate <= high.
Proof.
  intros Hlh H. unfold Solver.irrBisection in H.
  destruct (Num.ltb 0 (Solver.npv low cashflows * Solver.npv high cashflows));
    [discriminate|].
  eapply bisectLoop_in_bracket; eassumption.
Qed.

(** X19.  The net present value that the Newton solver of [App.jsx]
    accumulates in its inner loop is the [npv] of
    [RealROICalculator.jsx]. *)
Theorem newton_sums_the_same_npv (cashFlows : list Qc) (r : Qc) :
  fst (Newton.sumsLoop r cashFlows 0 0 0) = Solver.npv r cashFlows.
Proof. apply sumsLoop_npv. Qed.

(** X20.  Started on a rate whose net present value is zero, where
    [1 + r] and the derivative are not zero, the Newton solver returns
    that rate. *)
Theorem newton_keeps_a_root (cashFlows : list Qc) (guess : Qc) :
  1 + guess <> 0 ->
  Solver.npv guess cashFlows = 0 ->
  snd (Newton.sumsLoop guess cashFlows 0 0 0) <> 0 ->
  Newton.irr cashFlows guess = Some guess.
Proof.
  intros H1 Hroot Hd.
  unfold Newton.irr, Newton.maxIter. cbn [Newton.irrLoop].
  unfold Newton.newtonStep.
  destruct (Qc_eq_bool (1 + guess) 0) eqn:E;
    [apply Qc_eq_bool_correct in E; contradiction|].
  unfold Solver.npv in Hroot. rewrite <- sumsLoop_npv with (dnpv := 0) in Hroot.
  destruct (Newton.sumsLoop guess cashFlows 0 0 0) as [npv dnpv].
  cbn [fst snd] in *. subst npv.
  destruct (Qc_eq_bool dnpv 0) eqn:E';
    [apply Qc_eq_bool_correct in E'; contradiction|].
  replace (0 / dnpv) with 0 by (field; exact Hd).
  rewrite abs_zero_below_tol. f_equal. ring.
Qed.

(** X21.  On an empty series and on a series of a single cash flow the
    derivative is zero and the Newton solver returns a value that is
    not finite, whatever the guess. *)
Theorem newton_needs_two_cash_flows (c guess : Qc) :
  Newton.irr [] guess = None /\ Newton.irr (c :: []) guess = None.
Proof.
  unfold Newton.irr, Newton.maxIter. cbn [Newton.irrLoop].
  unfold Newton.newtonStep. cbn [Newton.sumsLoop].
  destruct (Qc_eq_bool (1 + guess) 0) eqn:E; [split; reflexivity|].
  replace (0 + - Num.ofZ 0 * c / (Num.pow (1 + guess) 0 * (1 + guess)))
    with 0.
  - split; reflexivity.
  - rewrite pow_0. replace (- Num.ofZ 0) with 0 by (apply Qc_is_canon; reflexivity).
    field. exact (neq_of_eqb _ _ E).
Qed.

End RootProperties.

(** ** The helpers of [RealROICalculator.jsx] *)

Module CalculatorFacts.
Import Calculator NumFacts.

Lemma spacedLoop_length step months turns i :
  length (spacedLoop step months turns i) = turns.
Proof.
  revert i; induction turns as [|k IH]; intros i; cbn [spacedLoop length];
    [reflexivity | now rewrite IH].
Qed.

(** While the multiples of [step] stay below [months], the clamp of the
    loop does nothing. *)
Lemma spacedLoop_multiples step months turns :
  forall i,
    (0 <= step)%Z -> (0 <= i)%Z ->
    (step * (i + Z.of_nat turns - 1) <= months - 1)%Z ->
    spacedLoop step months turns i
    = map (fun j => (step * (i + Z.of_nat j))%Z) (seq 0 turns).
Proof.
  induction turns as [|k IH]; intros i Hs Hi Hb; [reflexivity|].
  cbn [spacedLoop seq map]. f_equal.
  - rewrite Z.add_0_r. apply Z.min_l. nia.
  - rewrite IH by nia. rewrite <- seq_shift, map_map.
    apply map_ext. intros j. f_equal. lia.
Qed.

Lemma spacedLoop_zero_step months turns i :
  (1 <= months)%Z -> spacedLoop 0 months turns i = repeat 0%Z turns.
Proof.
  intros Hm. revert i; induction turns as [|k IH]; intros i; [reflexivity|].
  cbn [spacedLoop repeat]. rewrite IH. f_equal. lia.
Qed.

Lemma specialAllowance_cases (m : Qc) :
  (m <= Num.ofZ 100000 /\ specialAllowance m = Num.ofZ 25000)
  \/ (Num.ofZ 150000 <= m /\ specialAllowance m = 0)
  \/ (Num.ofZ 100000 < m /\ m < Num.ofZ 150000
      /\ specialAllowance m
         = Num.ofZ 25000 - Num.dec 5 10 * (m - Num.ofZ 100000)).
Proof.
  unfold specialAllowance.
  destruct (Num.leb m (Num.ofZ 100000)) eqn:E1.
  - left. split; [now apply leb_le | reflexivity].
  - destruct (Num.leb (Num.ofZ 150000) m) eqn:E2.
    + right; left. split; [now apply leb_le | reflexivity].
    + right; right. apply leb_gt in E1, E2.
      split; [exact E1 | split; [exact E2 |]].
      unfold Num.max.
      destruct (Num.ltb 0 (Num.ofZ 25000 - Num.dec 5 10 * (m - Num.ofZ 100000)))
        eqn:E3; [reflexivity|].
      apply ltb_ge in E3. exfalso. revert E2 E3. qc2q. unfold inject_Z.
      intros. lra.
Qed.

Lemma specialAllowance_bounds (m : Qc) :
  0 <= specialAllowance m /\ specialAllowance m <= Num.ofZ 25000.
Proof.
  destruct (specialAllowance_cases m)
    as [[H ->] | [[H ->] | (H1 & H2 & ->)]].
  - split; [discriminate | apply Qcle_refl].
  - split; [apply Qcle_refl | discriminate].
  - revert H1 H2. qc2q. unfold inject_Z. intros. split; lra.
Qed.

Lemma min_le_l x y : min x y <= x.
Proof.
  unfold min. destruct (Num.ltb y x) eqn:E.
  - apply ltb_lt in E. now apply Qclt_le_weak.
  - apply Qcle_refl.
Qed.

Lemma min_le_r x y : min x y <= y.
Proof.
  unfold min. destruct (Num.ltb y x) eqn:E.
  - apply Qcle_refl.
  - now apply ltb_ge in E.
Qed.

End CalculatorFacts.

Section CalculatorProperties.
Import Calculator NumFacts CalculatorFacts.

(** X22.  For a positive [count] below [months], [spacedMonths] returns
    the first [count] multiples of [step = floor(months / (count + 1))]:
    the clamp to [months - 1] never applies, and every month returned
    lies between 1 and [months - 1]. *)
Theorem spacedMonths_are_multiples_of_the_step (count months : Z) :
  (0 < count)%Z -> (count < months)%Z ->
  let step := (months / (count + 1))%Z in
  spacedMonths count months
  = map (fun j => (step * Z.of_nat j)%Z) (seq 1 (Z.to_nat count))
  /\ Forall (fun v => (1 <= v <= months - 1)%Z) (spacedMonths count months).
Proof.
  intros Hc Hm step.
  assert (Hstep : (1 <= step)%Z).
  { subst step. apply Z.div_le_lower_bound; lia. }
  assert (Hmul : ((count + 1) * step <= months)%Z)
    by (subst step; apply Z.mul_div_le; lia).
  assert (E : spacedMonths count months
              = map (fun j => (step * Z.of_nat j)%Z) (seq 1 (Z.to_nat count))).
  { unfold spacedMonths.
    destruct (count <=? 0)%Z eqn:E0; [apply Z.leb_le in E0; lia|].
    fold step. rewrite spacedLoop_multiples by nia.
    rewrite <- seq_shift, map_map. apply map_ext. intros j. f_equal. lia. }
  split; [exact E|].
  rewrite E. apply Forall_map, Forall_forall. intros j Hj.
  apply in_seq in Hj. nia.
Qed.

(** X23.  [spacedMonths] returns no month for a count that is not
    positive; and when at least as many months are asked for as there
    are, the step is 0 and every one of them falls on month 0. *)
Theorem spacedMonths_degenerate (count months : Z) :
  ((count <= 0)%Z -> spacedMonths count months = [])
  /\ ((1 <= months <= count)%Z ->
      spacedMonths count months = repeat 0%Z (Z.to_nat count)).
Proof.
  unfold spacedMonths. split.
  - intros Hc. apply Z.leb_le in Hc. now rewrite Hc.
  - intros Hm.
    destruct (count <=? 0)%Z eqn:E0; [apply Z.leb_le in E0; lia|].
    rewrite Z.div_small by lia. apply spacedLoop_zero_step. lia.
Qed.

(** X24.  The special allowance lies between 0 and 25000, never rises
    with the MAGI, and between a MAGI of 100000 and one of 150000 it
    is 25000 minus half of the excess over 100000. *)
Theorem specialAllowance_phases_out (magi magi' : Qc) :
  (0 <= specialAllowance magi /\ specialAllowance magi <= Num.ofZ 25000)
  /\ (magi <= magi' -> specialAllowance magi' <= specialAllowance magi)
  /\ (Num.ofZ 100000 < magi -> magi < Num.ofZ 150000 ->
      specialAllowance magi
      = Num.ofZ 25000 - Num.dec 5 10 * (magi - Num.ofZ 100000)).
Proof.
  split; [apply specialAllowance_bounds | split].
  - intros Hle.
    destruct (specialAllowance_cases magi)
      as [[H ->] | [[H ->] | (H1 & H2 & ->)]];
    destruct (specialAllowance_cases magi')
      as [[H' ->] | [[H' ->] | (H1' & H2' & ->)]];
    revert Hle; try revert H; try revert H'; try revert H1 H2;
      try revert H1' H2'; qc2q; unfold inject_Z; intros; lra.
  - intros H1 H2.
    destruct (specialAllowance_cases magi)
      as [[H _] | [[H _] | (_ & _ & E)]]; [| | exact E];
      exfalso; revert H H1 H2; qc2q; unfold inject_Z; intros; lra.
Qed.

(** X25.  The deduction used at once never exceeds the deduction
    available; with REPS/STR it is all of it, and without it is at
    most the special allowance plus the other passive income, hence at
    most 25000 plus that income. *)
Theorem immediate_deduction_is_capped (i : CostSegInputs) :
  immediateUsed i <= immediateAvailable i
  /\ (repsOrSTR i = true -> immediateUsed i = immediateAvailable i)
  /\ (repsOrSTR i = false ->
      immediateUsed i <= specialAllowance (magi i) + otherPassiveIncome i
      /\ immediateUsed i <= Num.ofZ 25000 + otherPassiveIncome i).
Proof.
  unfold immediateUsed, immediateCap.
  destruct (repsOrSTR i).
  - split; [apply Qcle_refl | split; [reflexivity | discriminate]].
  - split; [apply min_le_l | split; [discriminate | intros _]].
    pose proof (min_le_r (immediateAvailable i)
                  (specialAllowance (magi i) + otherPassiveIncome i)) as H.
    split; [exact H|].
    destruct (specialAllowance_bounds (magi i)) as [_ Hb].
    set (u := min _ _) in *. set (a := specialAllowance _) in *.
    clearbody u a. revert H Hb. qc2q. intros. lra.
Qed.

End CalculatorProperties.

(** ** The CPI series of [App.tsx] *)

Module TsxFacts.
Import NumFacts PipelineFacts LedgerFacts Notions.

Lemma cpiValue_succ mi j : cpiValue mi (S j) = cpiValue mi j * (1 + mi).
Proof.
  unfold cpiValue. rewrite Nat2Z.inj_succ. unfold Z.succ.
  rewrite pow_succ by lia. ring.
Qed.

Lemma cpiLoop_closed mi count :
  forall i series,
    Z.of_nat (length series) = i -> (0 < i)%Z ->
    series = map (cpiValue mi) (seq 0 (length series)) ->
    AppTsx.cpiLoop mi count i series
    = map (cpiValue mi) (seq 0 (length series + count)).
Proof.
  induction count as [|k IH]; intros i series Hlen Hi Hs;
    cbn [AppTsx.cpiLoop].
  - now rewrite Nat.add_0_r.
  - replace (length series + S k)%nat
      with (length (series ++ [cpiValue mi (length series)]) + k)%nat
      by (rewrite length_app; cbn [length]; lia).
    assert (Hlast : Num.item series (i - 1)
                    = Some (cpiValue mi (length series - 1))).
    { unfold Num.item.
      destruct (i - 1 <? 0)%Z eqn:E; [apply Z.ltb_lt in E; lia|].
      rewrite Hs at 1. rewrite nth_error_map, nth_error_seq.
      replace (Z.to_nat (i - 1) <? length series)%nat with true
        by (symmetry; apply Nat.ltb_lt; lia).
      cbn [option_map]. do 2 f_equal. lia. }
    rewrite Hlast.
    replace (cpiValue mi (length series - 1) * (1 + mi))
      with (cpiValue mi (length series))
      by (rewrite <- cpiValue_succ; f_equal; lia).
    apply IH.
    + rewrite length_app. cbn [length]. lia.
    + lia.
    + rewrite length_app. cbn [length].
      rewrite Nat.add_1_r, seq_S, map_app. cbn [map Nat.add]. now rewrite <- Hs.
Qed.

Lemma pow_nonzero (x : Qc) (z : Z) : x <> 0 -> Num.pow x z <> 0.
Proof.
  intros Hx. qc2q. apply Qpower_not_0. exact Hx.
Qed.

Lemma cpiSeries_closed mi d :
  AppTsx.cpiSeries mi d
  = map (cpiValue mi)
        (seq 0 (Z.to_nat (Z.max 1 (AppTsx.timelineYears d * 12)))).
Proof.
  unfold AppTsx.cpiSeries.
  rewrite (cpiLoop_closed mi _ 1 [Num.ofZ 100]); [| reflexivity | lia |].
  - cbn [length]. do 2 f_equal; lia.
  - cbn [length seq map]. apply (f_equal (fun x => x :: [])).
    unfold cpiValue. cbn [Z.of_nat]. rewrite pow_0. ring.
Qed.

Lemma cpiValue_nonzero mi j : 1 + mi <> 0 -> cpiValue mi j <> 0.
Proof.
  intros Hmi. unfold cpiValue. intros E.
  apply Qcmult_integral in E. destruct E as [E|E]; [discriminate E|].
  revert E. now apply pow_nonzero.
Qed.

End TsxFacts.

Section TsxProperties.
Import NumFacts PipelineFacts LedgerFacts TsxFacts Notions.

Variables (mi : Qc) (d : AppTsx.Deal).

(** X26.  The CPI series of [App.tsx] has [max(1, 12 * timelineYears)]
    entries, and entry [j] is 100 compounded over [j] months:
    [100 * (1 + monthlyInflation)^j]. *)
Theorem tsx_cpi_series_compounds :
  AppTsx.cpiSeries mi d
  = map (cpiValue mi)
        (seq 0 (Z.to_nat (Z.max 1 (AppTsx.timelineYears d * 12)))).
Proof. apply cpiSeries_closed. Qed.

(** X27.  In [App.tsx], when [1 + monthlyInflation] is not zero, the
    flows of year [y] (counted from 0, within the timeline) are
    deflated at the index of the year's last month: the deflator is
    [1 / (1 + monthlyInflation)^(12 * y + 11)]. *)
Theorem tsx_year_deflator (y : Z) :
  1 + mi <> 0 -> (0 <= y < AppTsx.timelineYears d)%Z ->
  AppTsx.yearDeflator mi d y = / Num.pow (1 + mi) (12 * y + 11).
Proof.
  intros Hmi Hy. unfold AppTsx.yearDeflator, AppTsx.cpiBase, Num.item.
  rewrite cpiSeries_closed.
  destruct ((y + 1) * 12 - 1 <? 0)%Z eqn:E; [apply Z.ltb_lt in E; lia|].
  rewrite nth_error_map, nth_error_seq.
  replace (Z.to_nat ((y + 1) * 12 - 1)
           <? Z.to_nat (Z.max 1 (AppTsx.timelineYears d * 12)))%nat
    with true by (symmetry; apply Nat.ltb_lt; lia).
  cbn [option_map Nat.add].
  unfold Num.orElse.
  destruct (Qc_eq_bool (cpiValue mi (Z.to_nat ((y + 1) * 12 - 1))) 0) eqn:E0.
  - apply Qc_eq_bool_correct in E0. now apply cpiValue_nonzero in E0.
  - replace (Z.to_nat (Z.max 1 (AppTsx.timelineYears d * 12)))
      with (S (Z.to_nat (AppTsx.timelineYears d * 12 - 1))) by lia.
    cbn [seq map nth]. unfold cpiValue. cbn [Z.of_nat].
    rewrite pow_0, Z2Nat.id by lia.
    replace ((y + 1) * 12 - 1)%Z with (12 * y + 11)%Z by lia.
    field. split; [now apply pow_nonzero | discriminate].
Qed.

End TsxProperties.

(** ** The rent schedule of [RealROICalculator.jsx] *)

Module RentalFacts.
Import Rental NumFacts Notions.

Lemma rents_length s g months : length (rents s g months) = Z.to_nat months.
Proof. unfold rents. now rewrite length_map, length_seq. Qed.

Lemma zeroAt_in_range l vm :
  (0 <= vm < Z.of_nat (length l))%Z ->
  zeroAt l vm = firstn (Z.to_nat vm) l ++ 0 :: skipn (S (Z.to_nat vm)) l.
Proof.
  intros H. unfold zeroAt.
  destruct (vm <? 0)%Z eqn:E; [apply Z.ltb_lt in E; lia|].
  destruct (vm <? Z.of_nat (length l))%Z eqn:E'; [reflexivity|].
  apply Z.ltb_ge in E'. lia.
Qed.

Lemma zeroAt_length l vm :
  (0 <= vm < Z.of_nat (length l))%Z -> length (zeroAt l vm) = length l.
Proof.
  intros H. rewrite zeroAt_in_range by exact H.
  rewrite length_app, length_firstn. cbn [length]. rewrite length_skipn. lia.
Qed.

Lemma zeroAt_sum l vm :
  (0 <= vm < Z.of_nat (length l))%Z ->
  Num.sum (zeroAt l vm) = Num.sum l - rentAt l vm.
Proof.
  intros H. rewrite zeroAt_in_range by exact H.
  unfold rentAt, Num.item.
  destruct (vm <? 0)%Z eqn:E; [apply Z.ltb_lt in E; lia|].
  destruct (nth_error l (Z.to_nat vm)) as [v|] eqn:Ev;
    [| apply nth_error_None in Ev; lia].
  rewrite <- (firstn_skipn (Z.to_nat vm) l) at 3.
  assert (Hs : skipn (Z.to_nat vm) l = v :: skipn (S (Z.to_nat vm)) l).
  { clear H E. revert Ev. generalize (Z.to_nat vm) as k.
    induction l as [|x l IH]; intros [|k] Ev; try discriminate.
    - cbn in Ev. injection Ev as ->. reflexivity.
    - cbn [nth_error] in Ev. cbn [skipn]. apply IH. exact Ev. }
  rewrite Hs, !sum_app, !sum_cons. ring.
Qed.

Lemma nth_error_replaced (l : list Qc) (x : Qc) :
  forall k j, (k < length l)%nat -> j <> k ->
    nth_error (firstn k l ++ x :: skipn (S k) l) j = nth_error l j.
Proof.
  induction l as [|y l IH]; intros k j Hk Hj; cbn [length] in Hk; [lia|].
  destruct k as [|k], j as [|j]; cbn [firstn skipn app nth_error];
    try reflexivity; try lia.
  apply IH; lia.
Qed.

Lemma zeroAt_other l vm vm' :
  (0 <= vm < Z.of_nat (length l))%Z -> vm' <> vm ->
  rentAt (zeroAt l vm) vm' = rentAt l vm'.
Proof.
  intros H Hne. rewrite zeroAt_in_range by exact H.
  unfold rentAt, Num.item.
  destruct (vm' <? 0)%Z eqn:E; [reflexivity|]. apply Z.ltb_ge in E.
  rewrite nth_error_replaced by lia. reflexivity.
Qed.

Lemma zeroAt_again l vm :
  (0 <= vm < Z.of_nat (length l))%Z -> zeroAt (zeroAt l vm) vm = zeroAt l vm.
Proof.
  intros H.
  rewrite (zeroAt_in_range (zeroAt l vm)) by (rewrite zeroAt_length; exact H).
  rewrite zeroAt_in_range by exact H.
  rewrite firstn_app, firstn_firstn, Nat.min_id, length_firstn.
  replace (Z.to_nat vm - Nat.min (Z.to_nat vm) (length l))%nat with O by lia.
  cbn [firstn]. rewrite app_nil_r. f_equal.
  rewrite skipn_app, length_firstn.
  replace (S (Z.to_nat vm) - Nat.min (Z.to_nat vm) (length l))%nat with 1%nat by lia.
  rewrite skipn_all2 by (rewrite length_firstn; lia).
  reflexivity.
Qed.

(** Zeroing distinct months of the array takes the rent of each of
    them off the total. *)
Lemma rentsAdj_sum vms :
  forall l,
    NoDup vms -> Forall (fun vm => (0 <= vm < Z.of_nat (length l))%Z) vms ->
    Num.sum (rentsAdj l vms) = Num.sum l - Num.sum (map (rentAt l) vms).
Proof.
  unfold rentsAdj.
  induction vms as [|vm vms IH]; intros l Hnd Hall; cbn [fold_left map].
  - rewrite sum_nil. ring.
  - inversion Hnd as [|? ? Hnotin Hnd']; subst.
    inversion Hall as [|? ? Hvm Hall']; subst.
    rewrite IH.
    + rewrite zeroAt_sum, sum_cons by exact Hvm.
      replace (map (rentAt (zeroAt l vm)) vms) with (map (rentAt l) vms);
        [ring|].
      apply map_ext_in. intros vm' Hin. symmetry.
      apply zeroAt_other; [exact Hvm | intros ->; contradiction].
    + exact Hnd'.
    + rewrite zeroAt_length by exact Hvm. exact Hall'.
Qed.

Lemma rentsAdj_repeat l vm k :
  (0 <= vm < Z.of_nat (length l))%Z ->
  rentsAdj l (repeat vm (S k)) = zeroAt l vm.
Proof.
  intros H. unfold rentsAdj. cbn [repeat fold_left].
  induction k as [|k IH]; [reflexivity|].
  cbn [repeat fold_left]. rewrite zeroAt_again by exact H. exact IH.
Qed.

Lemma spacedMonths_closed (count months : Z) :
  (0 < count)%Z -> (count < months)%Z ->
  Calculator.spacedMonths count months
  = map (fun j => (months / (count + 1) * Z.of_nat j)%Z) (seq 1 (Z.to_nat count)).
Proof.
  intros Hc Hm.
  assert (Hstep : (1 <= months / (count + 1))%Z)
    by (apply Z.div_le_lower_bound; lia).
  assert (Hmul : ((count + 1) * (months / (count + 1)) <= months)%Z)
    by (apply Z.mul_div_le; lia).
  unfold Calculator.spacedMonths.
  destruct (count <=? 0)%Z eqn:E0; [apply Z.leb_le in E0; lia|].
  rewrite CalculatorFacts.spacedLoop_multiples by nia.
  rewrite <- seq_shift, map_map. apply map_ext. intros j. f_equal. lia.
Qed.

Lemma spacedMonths_collapse (count months : Z) :
  (1 <= months <= count)%Z ->
  Calculator.spacedMonths count months = repeat 0%Z (Z.to_nat count).
Proof.
  intros Hm. unfold Calculator.spacedMonths.
  destruct (count <=? 0)%Z eqn:E0; [apply Z.leb_le in E0; lia|].
  rewrite Z.div_small by lia. apply CalculatorFacts.spacedLoop_zero_step. lia.
Qed.

End RentalFacts.

Section RentalProperties.
Import Rental NumFacts RentalFacts Notions.

Variables (startRentMonthly rentGrowthAnnual : Qc) (vacCount months : Z).

(** X29.  For a vacancy count that is positive and below the number of
    months, the rent collected is the rent of all the months minus the
    rent of each vacancy month: the months of [spacedMonths] are
    distinct, and each takes off the rent due in it. *)
Theorem vacancies_cost_their_rent :
  (0 < vacCount)%Z -> (vacCount < months)%Z ->
  let rs := rents startRentMonthly rentGrowthAnnual months in
  totalRentCollected startRentMonthly rentGrowthAnnual vacCount months
  = Num.sum rs
    - Num.sum (map (rentAt rs) (Calculator.spacedMonths vacCount months)).
Proof.
  intros Hc Hm rs. unfold totalRentCollected. fold rs.
  assert (Hstep : (1 <= months / (vacCount + 1))%Z)
    by (apply Z.div_le_lower_bound; lia).
  assert (Hmul : ((vacCount + 1) * (months / (vacCount + 1)) <= months)%Z)
    by (apply Z.mul_div_le; lia).
  apply rentsAdj_sum; rewrite spacedMonths_closed by assumption.
  - apply Injective_map_NoDup; [| apply seq_NoDup].
    intros i j E. nia.
  - apply Forall_map, Forall_forall. intros j Hj. apply in_seq in Hj.
    subst rs. rewrite rents_length. nia.
Qed.

(** X30.  Without vacancy ([vacCount <= 0]) all the rent is collected.
    With at least as many vacancy months as there are months, all of
    them fall on month 0 and only the first month's rent is lost. *)
Theorem vacancies_without_room :
  ((vacCount <= 0)%Z ->
   totalRentCollected startRentMonthly rentGrowthAnnual vacCount months
   = Num.sum (rents startRentMonthly rentGrowthAnnual months))
  /\ ((1 <= months <= vacCount)%Z ->
      totalRentCollected startRentMonthly rentGrowthAnnual vacCount months
      = Num.sum (rents startRentMonthly rentGrowthAnnual months)
        - startRentMonthly).
Proof.
  unfold totalRentCollected. split.
  - intros Hc. unfold Calculator.spacedMonths.
    apply Z.leb_le in Hc. now rewrite Hc.
  - intros Hm. rewrite spacedMonths_collapse by exact Hm.
    set (rs := rents startRentMonthly rentGrowthAnnual months).
    assert (Hlen : (0 <= 0 < Z.of_nat (length rs))%Z)
      by (subst rs; rewrite rents_length; lia).
    replace (Z.to_nat vacCount) with (S (Z.to_nat vacCount - 1)) by lia.
    rewrite rentsAdj_repeat, zeroAt_sum by exact Hlen.
    f_equal. subst rs. unfold rentAt, rents, Num.item. cbn [Z.ltb Z.compare Z.to_nat].
    replace (Z.to_nat months) with (S (Z.to_nat months - 1)) by lia.
    cbn [seq map nth_error Z.of_nat Z.div]. change (0 / 12)%Z with 0%Z.
    rewrite pow_0. ring.
Qed.

End RentalProperties.

(** ** The two variants of the yearly cash flow *)

(** X28.  Under the defaults of [App.jsx] (five vacancy months, 15000
    of repairs and 5000 of warranty per ten years) its [annualCashFlow]
    is the [annualCashFlow] of [App.tsx] with the yearly warranty
    [2500 / 5] that [App.tsx] passes: the two variants compute the same
    yearly operating cash flow. *)
Theorem annual_cash_flow_variants_agree
  (rentMonthly price taxesPct insuranceAnnual piMonthly : Qc)
  (pmiMonthly : option Qc) :
  RealROI.annualCashFlow
    (RealROI.mkConfig rentMonthly AppJsx.pmPct price taxesPct
       AppJsx.vacancyMonths10yr AppJsx.repairs10yr AppJsx.warranty10yr
       pmiMonthly piMonthly insuranceAnnual)
  = AppTsx.annualCashFlow rentMonthly AppTsx.pmPct price taxesPct
      (Num.ofZ 2500 / Num.ofZ 5) pmiMonthly piMonthly insuranceAnnual.
Proof.
  unfold RealROI.annualCashFlow, AppTsx.annualCashFlow.
  cbn [RealROI.rentMonthly RealROI.pmPct RealROI.price RealROI.taxesPct
       RealROI.vacancyMonths10yr RealROI.repairs10yr RealROI.warranty10yr
       RealROI.pmiMonthly RealROI.piMonthly RealROI.insuranceAnnual].
  replace (AppJsx.vacancyMonths10yr / Num.ofZ 10) with (Num.dec 5 10)
    by (apply Qc_is_canon; reflexivity).
  replace (AppJsx.warranty10yr / Num.ofZ 10) with (Num.ofZ 2500 / Num.ofZ 5)
    by (apply Qc_is_canon; reflexivity).
  replace (AppJsx.repairs10yr / Num.ofZ 10) with (Num.ofZ 15000 / Num.ofZ 10)
    by reflexivity.
  replace AppJsx.pmPct with AppTsx.pmPct by reflexivity.
  ring.
Qed.

(** ** The further properties on concrete inputs *)

Lemma summary_total_paid_witness :
  let s := RealROI.amortizationSchedule (Num.ofZ 1200) (Num.dec 12 100) 1 in
  let f := RealROI.summarizeFinancials (Schedule.rows s) 3 in
  Financials.principalPaid f + Financials.interestPaid f
  = Num.ofZ (Z.min (1 * 12) (3 * 12)) * Schedule.paymentMonthly s.
Proof.
  apply (summary_total_paid (Num.ofZ 1200) (Num.dec 12 100) 1 3); lia.
Defined.

Lemma summary_conserves_loan_witness :
  let s := RealROI.amortizationSchedule (Num.ofZ 240000) (Num.dec 65 1000) 30 in
  let f := RealROI.summarizeFinancials (Schedule.rows s) 10 in
  Financials.principalPaid f + Financials.balance f = Num.ofZ 240000
  /\ 0 <= Financials.balance f.
Proof.
  apply (summary_conserves_loan (Num.ofZ 240000) (Num.dec 65 1000) 30 10);
    reflexivity.
Defined.

Lemma summary_after_term_witness :
  let s := RealROI.amortizationSchedule (Num.ofZ 1200) (Num.dec 12 100) 1 in
  let f := RealROI.summarizeFinancials (Schedule.rows s) 5 in
  Financials.principalPaid f = Num.ofZ 1200 /\ Financials.balance f = 0.
Proof.
  apply (summary_after_term (Num.ofZ 1200) (Num.dec 12 100) 1 5);
    first [reflexivity | lia].
Defined.

Lemma summary_negative_horizon_witness :
  RealROI.summarizeFinancials
    [Row.mk 1 (Num.ofZ 10) 1 (Num.ofZ 9) (Num.ofZ 91)] (-1)
  = Financials.mk 0 0 0.
Proof.
  apply (summary_negative_horizon (-1)). reflexivity.
Defined.

Lemma schedule_rows_split_the_payment_witness :
  let s := RealROI.amortizationSchedule (Num.ofZ 240000) (Num.dec 65 1000) 30 in
  Forall (fun row =>
            Row.payment row = Schedule.paymentMonthly s
            /\ Row.interest row + Row.principal row = Row.payment row
            /\ 0 <= Row.interest row
            /\ 0 < Row.principal row)
         (Schedule.rows s)
  /\ map Row.month (Schedule.rows s) = map Z.of_nat (seq 1 (Z.to_nat (30 * 12))).
Proof.
  apply (schedule_rows_split_the_payment (Num.ofZ 240000) (Num.dec 65 1000) 30);
    reflexivity.
Defined.

Lemma principal_portion_compounds_witness :
  let rs := Schedule.rows
              (RealROI.amortizationSchedule (Num.ofZ 1200) (Num.dec 12 100) 1) in
  exists a b,
    nth_error rs 0 = Some a /\ nth_error rs 1 = Some b
    /\ Row.principal b
       = Row.principal a * (1 + RealROI.monthlyRate (Num.dec 12 100)).
Proof.
  cbv zeta.
  destruct (nth_error (Schedule.rows
              (RealROI.amortizationSchedule (Num.ofZ 1200) (Num.dec 12 100) 1)) 0)
    as [a|] eqn:Ea;
    [| apply nth_error_None in Ea;
       unfold RealROI.amortizationSchedule in Ea; cbn [Schedule.rows] in Ea;
       rewrite AmortizationFacts.scheduleLoop_length in Ea; cbn in Ea; lia].
  destruct (nth_error (Schedule.rows
              (RealROI.amortizationSchedule (Num.ofZ 1200) (Num.dec 12 100) 1)) 1)
    as [b|] eqn:Eb;
    [| apply nth_error_None in Eb;
       unfold RealROI.amortizationSchedule in Eb; cbn [Schedule.rows] in Eb;
       rewrite AmortizationFacts.scheduleLoop_length in Eb; cbn in Eb; lia].
  exists a, b. split; [reflexivity | split; [reflexivity |]].
  exact (principal_portion_compounds (Num.ofZ 1200) (Num.dec 12 100) 1 0 a b Ea Eb).
Defined.

Lemma appreciationGain_sign_witness :
  0 < RealROI.appreciationGain (Num.ofZ 450000) (Num.dec 55 1000) 10.
Proof.
  apply (proj2 (proj2 (appreciationGain_sign (Num.ofZ 450000) (Num.dec 55 1000) 10)));
    reflexivity.
Defined.

Lemma total_tax_savings_telescopes_witness :
  AppJsx.totalTaxSavings Aux.shortLoanDeal
  = (Financials.interestPaid
       (RealROI.summarizeFinancials
          (Schedule.rows (AppJsx.schedule Aux.shortLoanDeal)) 5)
     + Num.ofZ 5 * (AppJsx.price Aux.shortLoanDeal * AppJsx.taxesPct Aux.shortLoanDeal))
    * AppJsx.defaultMarginalRate.
Proof.
  apply (total_tax_savings_telescopes Aux.shortLoanDeal). reflexivity.
Defined.

Lemma cash_flow_is_flat_without_pmi_witness :
  let d := Aux.shortLoanDeal in
  let flat :=
    RealROI.annualCashFlow
      (AppJsx.cashFlowConfig d (Schedule.paymentMonthly (AppJsx.schedule d)) 0) in
  Forall (fun e => LedgerEntry.nominalCashFlow e = flat) (AppJsx.ledger d)
  /\ LedgerEntry.cumulativeNominalCashFlow (AppJsx.finalLedgerEntry d)
     = Num.ofZ (Z.of_nat (length (AppJsx.ledger d))) * flat.
Proof.
  apply (cash_flow_is_flat_without_pmi Aux.shortLoanDeal). discriminate.
Defined.

Lemma final_entry_conserves_loan_witness :
  let d := Aux.shortLoanDeal in
  AppJsx.principalPaid d + LedgerEntry.loanBalance (AppJsx.finalLedgerEntry d)
  = AppJsx.loan d
  /\ LedgerEntry.loanBalance (AppJsx.finalLedgerEntry d) = 0.
Proof.
  destruct (final_entry_conserves_loan Aux.shortLoanDeal) as [H1 H2];
    try reflexivity.
  split; [exact H1 | apply H2; discriminate].
Defined.

Lemma monthly_series_redistributes_the_ledger_witness :
  let d := Aux.shortLoanDeal in
  length (AppJsxFlows.monthlyCashFlows d) = 61%nat
  /\ Num.sum (AppJsxFlows.monthlyCashFlows d)
     = - AppJsx.totalInvestment d
       + LedgerEntry.cumulativeNominalCashFlow (AppJsx.finalLedgerEntry d)
       + AppJsx.netProceeds d.
Proof.
  destruct (monthly_series_redistributes_the_ledger Aux.shortLoanDeal)
    as (H1 & H2 & _).
  split; [exact H1 | apply H2; reflexivity].
Defined.

Lemma monthly_series_is_deflated_per_month_witness :
  nth_error (AppJsxFlows.monthlyRealCashFlows Aux.shortLoanDeal) 0
  = Some (- AppJsx.totalInvestment Aux.shortLoanDeal
          * (AppJsx.cpiBase / nth (Nat.min 0 179) AppJsx.cpiSeries 0)).
Proof.
  apply (proj1 (monthly_series_is_deflated_per_month Aux.shortLoanDeal)).
  apply FlowFacts.monthlyCashFlows_head.
Defined.

Lemma realEquityCurve_needs_long_enough_series_witness :
  RealROI.realEquityCurve [0; 0] [0] [0; 0] 0 = None
  /\ (Nat.lt (length [Num.dec 1 100]) (length [0; Num.dec 1 100])
      \/ Nat.lt (length [Num.dec 2 1000; Num.dec 3 1000])
                (length [0; Num.dec 1 100])).
Proof.
  split.
  - apply (proj1 (realEquityCurve_needs_long_enough_series [0; 0] [0] [0; 0] 0)).
    left. cbn. lia.
  - apply (proj2 (realEquityCurve_needs_long_enough_series
                    [0; Num.dec 1 100] [Num.dec 1 100]
                    [Num.dec 2 1000; Num.dec 3 1000] (Num.ofZ 3))).
    + repeat constructor; apply NumFacts.neq_of_eqb; vm_compute; reflexivity.
    + apply (proj1 (realEquityCurve_needs_long_enough_series
                      [0; Num.dec 1 100] [Num.dec 1 100]
                      [Num.dec 2 1000; Num.dec 3 1000] (Num.ofZ 3))).
      left. cbn. lia.
Defined.

Lemma equity_curve_of_the_app_is_not_a_number_witness :
  length AppJsxFlows.cpiGrowth = 179%nat
  /\ AppJsxFlows.equityCurve (repeat (Num.dec 1 100) 180)
       (repeat (Num.dec 15 10000) 180) (Num.ofZ 3) = None.
Proof.
  apply equity_curve_of_the_app_is_not_a_number. apply repeat_length.
Defined.

Lemma single_contribution_grows_with_the_curve_witness :
  RealROI.terminalWealthFromCashFlows [1; Num.ofZ 2; Num.ofZ 3]
    (Num.ofZ 100 :: repeat 0 2)
  = Num.ofZ 100
    * (nth (length [1; Num.ofZ 2; Num.ofZ 3] - 1) [1; Num.ofZ 2; Num.ofZ 3] 0
       / nth 0 [1; Num.ofZ 2; Num.ofZ 3] 0).
Proof.
  apply single_contribution_grows_with_the_curve.
  - discriminate.
  - repeat constructor; discriminate.
Defined.

Lemma irrBisection_stays_in_bracket_witness :
  exists rate,
    Solver.irrBisectionDefault [Num.ofZ (-100); Num.ofZ 110] = Some rate
    /\ Solver.defaultLow <= rate /\ rate <= Solver.defaultHigh.
Proof.
  destruct (Solver.irrBisectionDefault [Num.ofZ (-100); Num.ofZ 110])
    as [rate|] eqn:E.
  - exists rate. split; [reflexivity|].
    apply (irrBisection_stays_in_bracket [Num.ofZ (-100); Num.ofZ 110]
             Solver.defaultLow Solver.defaultHigh Solver.defaultTol rate
             Solver.defaultMaxIter); [discriminate | exact E].
  - vm_compute in E. discriminate E.
Defined.

Lemma newton_keeps_a_root_witness :
  Newton.irr [Num.ofZ (-100); Num.ofZ 110] (Num.dec 1 10) = Some (Num.dec 1 10).
Proof.
  apply newton_keeps_a_root.
  - discriminate.
  - apply Qc_is_canon. reflexivity.
  - apply NumFacts.neq_of_eqb. reflexivity.
Defined.

Lemma spacedMonths_are_multiples_of_the_step_witness :
  Calculator.spacedMonths 3 120
  = map (fun j => (120 / (3 + 1) * Z.of_nat j)%Z) (seq 1 (Z.to_nat 3))
  /\ Forall (fun v => (1 <= v <= 120 - 1)%Z) (Calculator.spacedMonths 3 120).
Proof.
  apply (spacedMonths_are_multiples_of_the_step 3 120); lia.
Defined.

Lemma spacedMonths_degenerate_witness :
  Calculator.spacedMonths 0 120 = []
  /\ Calculator.spacedMonths 5 3 = repeat 0%Z (Z.to_nat 5).
Proof.
  split.
  - apply (proj1 (spacedMonths_degenerate 0 120)). lia.
  - apply (proj2 (spacedMonths_degenerate 5 3)). lia.
Defined.

Lemma specialAllowance_phases_out_witness :
  Calculator.specialAllowance (Num.ofZ 130000)
  <= Calculator.specialAllowance (Num.ofZ 120000)
  /\ Calculator.specialAllowance (Num.ofZ 120000)
     = Num.ofZ 25000 - Num.dec 5 10 * (Num.ofZ 120000 - Num.ofZ 100000).
Proof.
  destruct (specialAllowance_phases_out (Num.ofZ 120000) (Num.ofZ 130000))
    as (_ & H2 & H3).
  split; [apply H2; discriminate | apply H3; reflexivity].
Defined.

Lemma immediate_deduction_is_capped_witness :
  let i := Calculator.mkCostSeg (Num.ofZ 300000) (Num.dec 20 100)
             (Num.dec 25 100) 1 (Num.dec 24 100) (Num.ofZ 120000) 0
             false false in
  Calculator.immediateUsed i
  <= Calculator.specialAllowance (Calculator.magi i)
     + Calculator.otherPassiveIncome i
  /\ Calculator.immediateUsed i
     <= Num.ofZ 25000 + Calculator.otherPassiveIncome i.
Proof.
  apply (proj2 (proj2 (immediate_deduction_is_capped
           (Calculator.mkCostSeg (Num.ofZ 300000) (Num.dec 20 100)
              (Num.dec 25 100) 1 (Num.dec 24 100) (Num.ofZ 120000) 0
              false false)))).
  reflexivity.
Defined.

Lemma tsx_year_deflator_witness :
  let d := AppTsx.mkDeal (Num.ofZ 450000) (Num.dec 20 100) (Num.dec 65 10) 30
             (Num.dec 17 1000) (Num.ofZ 1800) (Num.ofZ 2600) (Num.dec 55 1000)
             10 false in
  AppTsx.yearDeflator (Num.dec 25 10000) d 9
  = / Num.pow (1 + Num.dec 25 10000) (12 * 9 + 11).
Proof.
  apply tsx_year_deflator; [discriminate | cbn [AppTsx.timelineYears]; lia].
Defined.

Lemma vacancies_cost_their_rent_witness :
  let rs := Rental.rents (Num.ofZ 1800) (Num.dec 3 100) 120 in
  Rental.totalRentCollected (Num.ofZ 1800) (Num.dec 3 100) 3 120
  = Num.sum rs
    - Num.sum (map (Notions.rentAt rs) (Calculator.spacedMonths 3 120)).
Proof.
  apply (vacancies_cost_their_rent (Num.ofZ 1800) (Num.dec 3 100) 3 120); lia.
Defined.

Lemma vacancies_without_room_witness :
  Rental.totalRentCollected (Num.ofZ 1800) (Num.dec 3 100) 0 120
  = Num.sum (Rental.rents (Num.ofZ 1800) (Num.dec 3 100) 120)
  /\ Rental.totalRentCollected (Num.ofZ 1800) (Num.dec 3 100) 15 12
     = Num.sum (Rental.rents (Num.ofZ 1800) (Num.dec 3 100) 12) - Num.ofZ 1800.
Proof.
  split.
  - apply (proj1 (vacancies_without_room (Num.ofZ 1800) (Num.dec 3 100) 0 120)).
    lia.
  - apply (proj2 (vacancies_without_room (Num.ofZ 1800) (Num.dec 3 100) 15 12)).
    lia.
Defined.

